(** * DAWProject data-access layer: DTO validation, Result envelopes,
      the engine's load/save checks and the streaming reader/writer.

    Shallow embedding of
      - include/dawproject/data/data_access_engine.h
      - src/data/data_access_engine_impl.cpp
      - src/data/data_access_engine_extracted.cpp

    Conventions of the embedding
      - [std::string] is [string]; [size()]/[length()] is [size], valued in
        [N] ([size_t] sums of two string lengths cannot wrap: each length is
        below [max_size() < 2^63]).
      - [double] is the kernel's IEEE-754 binary64 [float]; comparisons are
        the primitive ones, so NaN behaves as in C++.
      - [std::filesystem::path] is the POSIX generic-format string.
      - member functions that mutate [*this] return the new object next to
        their result.
      - calls into the operating system are read from an environment record
        [Env]; a call that may throw [filesystem_error] returns an
        [outcome]. Allocation failure ([std::bad_alloc]) is not modelled. *)

From Stdlib Require Import ZArith NArith List String Ascii Bool Lia Floats.
From Stdlib Require Import DecimalString Sorted.
Import ListNotations.

Open Scope string_scope.
Open Scope bool_scope.

(* ------------------------------------------------------------------ *)
(** ** std::string helpers *)

Definition dquote : ascii := "034"%char.
Definition newline : ascii := "010"%char.
Definition q : string := String dquote EmptyString.
Definition nl : string := String newline EmptyString.

(** [s.empty()] *)
Definition empty (s : string) : bool :=
  match s with EmptyString => true | String _ _ => false end.

(** [s.size()], [s.length()] *)
Fixpoint size (s : string) : N :=
  match s with
  | EmptyString => 0%N
  | String _ r => N.succ (size r)
  end.

(** [std::string(n, c)] *)
Definition fill (n : N) (c : ascii) : string :=
  N.iter n (String c) EmptyString.

(** [s.compare(0, needle.size(), needle) == 0] *)
Fixpoint starts_with (needle s : string) : bool :=
  match needle with
  | EmptyString => true
  | String a needle' =>
      match s with
      | EmptyString => false
      | String b s' => Ascii.eqb a b && starts_with needle' s'
      end
  end.

(** [s.find(needle) != std::string::npos] *)
Fixpoint contains (needle s : string) : bool :=
  starts_with needle s ||
  match s with
  | EmptyString => false
  | String _ r => contains needle r
  end.

(** [std::vector<std::string>] joined with a separator (used to print paths) *)
Fixpoint join (sep : string) (l : list string) : string :=
  match l with
  | [] => ""
  | [x] => x
  | x :: r => x ++ sep ++ join sep r
  end.

(** [v.push_back(x)] *)
Definition push_back {A} (v : list A) (x : A) : list A := (v ++ [x])%list.

(* ------------------------------------------------------------------ *)
(** ** Value initialisation [T{}] *)

Class ValueInit (T : Type) : Type := value_init : T.

#[export] Instance ValueInit_size_t : ValueInit N := 0%N.
#[export] Instance ValueInit_int : ValueInit Z := 0%Z.
#[export] Instance ValueInit_string : ValueInit string := "".
#[export] Instance ValueInit_vector {A} : ValueInit (list A) := [].

(** [std::chrono::system_clock::time_point]: ticks since the epoch *)
Definition time_point := Z.

(* ------------------------------------------------------------------ *)
(** ** Result<T>  (data_access_engine.h) *)

Record Result (T : Type) : Type := mkResult {
  success : bool;
  value : T;
  errorMessage : string;
  errorCode : Z
}.
Arguments mkResult {T}.
Arguments success {T}.
Arguments value {T}.
Arguments errorMessage {T}.
Arguments errorCode {T}.

Definition makeSuccess {T} (v : T) : Result T := mkResult true v "" 0%Z.

(** [makeError(message, code)] *)
Definition makeError_code {T} `{ValueInit T} (message : string) (code : Z)
  : Result T := mkResult false value_init message code.

(** [makeError(message)], the default argument [code = -1] *)
Definition makeError {T} `{ValueInit T} (message : string) : Result T :=
  makeError_code message (-1)%Z.

Definition WriteResult := Result N.

(* ------------------------------------------------------------------ *)
(** ** Data transfer objects  (data_access_engine.h, data_access_engine_impl.cpp) *)

Module ProjectInfo.
Record t : Type := mk {
  title : string;
  artist : string;
  album : string;
  genre : string;
  tempo : float;
  timeSignature : string;
  key : string;
  created : time_point;
  modified : time_point
}.

Definition isValid (p : t) : bool :=
  negb (empty (title p)) && (0 <? tempo p)%float.

Definition getValidationErrors (p : t) : list string :=
  let errors : list string := [] in
  let errors :=
    if empty (title p)
    then push_back errors "Project title cannot be empty" else errors in
  let errors :=
    if (tempo p <=? 0)%float
    then push_back errors "Project tempo must be greater than 0"
    else errors in
  let errors :=
    if empty (timeSignature p)
    then push_back errors "Time signature cannot be empty" else errors in
  errors.
End ProjectInfo.

#[export] Instance ValueInit_ProjectInfo : ValueInit ProjectInfo.t :=
  ProjectInfo.mk "" "" "" "" 0%float "" "" 0%Z 0%Z.

Inductive TrackType : Type := Audio | Instrument | Group | Return.

Module TrackInfo.
Record t : Type := mk {
  id : string;
  name : string;
  type : TrackType;
  color : string;
  volume : float;
  pan : float;
  muted : bool;
  soloed : bool;
  orderIndex : Z;
  instrumentId : option string;
  audioFile : option string
}.

Definition isValid (k : t) : bool :=
  negb (empty (id k)) && negb (empty (name k)) &&
  (0 <=? volume k)%float && (volume k <=? 1)%float.
End TrackInfo.

#[export] Instance ValueInit_TrackInfo : ValueInit TrackInfo.t :=
  TrackInfo.mk "" "" Audio "" 0%float 0%float false false 0%Z None None.

Module ClipInfo.
Record t : Type := mk {
  id : string;
  name : string;
  trackId : string;
  startTime : float;
  duration : float;
  playbackRate : float;
  fadeInTime : float;
  fadeOutTime : float;
  contentId : option string;
  audioFile : option string
}.

Definition isValid (c : t) : bool :=
  negb (empty (id c)) && negb (empty (name c)) && negb (empty (trackId c)) &&
  (0 <? duration c)%float && (0 <=? startTime c)%float.
End ClipInfo.

#[export] Instance ValueInit_ClipInfo : ValueInit ClipInfo.t :=
  ClipInfo.mk "" "" "" 0%float 0%float 0%float 0%float 0%float None None.

Module ValidationResult.
Record t : Type := mk {
  isValid : bool;
  errors : list string;
  warnings : list string;
  context : string
}.

Definition addError (r : t) (message : string) : t :=
  mk false (push_back (errors r) message) (warnings r) (context r).

Definition addWarning (r : t) (message : string) : t :=
  mk (isValid r) (errors r) (push_back (warnings r) message) (context r).

(** [a.merge(other)] for two distinct objects *)
Definition merge (a other : t) : t :=
  mk (if negb (isValid other) then false else isValid a)
     (errors a ++ errors other)%list
     (warnings a ++ warnings other)%list
     (context a).
End ValidationResult.

(* ------------------------------------------------------------------ *)
(** ** std::filesystem::path, lexical operations (POSIX generic format) *)

Definition slash : ascii := "/"%char.
Definition dot : ascii := "."%char.

(** the elements of a path string between directory separators *)
Fixpoint split (s : string) : list string :=
  match s with
  | EmptyString => [""]
  | String c r =>
      if Ascii.eqb c slash then "" :: split r
      else match split r with
           | [] => [String c ""]
           | h :: t => String c h :: t
           end
  end.

Definition has_root_directory (p : string) : bool :=
  match p with
  | String c _ => Ascii.eqb c slash
  | EmptyString => false
  end.

(** drop the directory separators that end a string *)
Fixpoint strip_trailing_slashes (s : string) : string :=
  match s with
  | EmptyString => ""
  | String c r =>
      match strip_trailing_slashes r with
      | EmptyString => if Ascii.eqb c slash then "" else String c ""
      | r' => String c r'
      end
  end.

(** [p.parent_path().string()] *)
Definition parent_path (p : string) : string :=
  match split p with
  | [] | [_] => ""
  | cs =>
      match strip_trailing_slashes (join "/" (removelast cs)) with
      | EmptyString => if has_root_directory p then "/" else ""
      | d => d
      end
  end.

(** [p.filename().string()] *)
Definition filename (p : string) : string := last (split p) "".

(** the suffix of [s] that starts at its rightmost period *)
Fixpoint from_last_dot (s : string) : option string :=
  match s with
  | EmptyString => None
  | String c r =>
      match from_last_dot r with
      | Some x => Some x
      | None => if Ascii.eqb c dot then Some s else None
      end
  end.

(** [p.extension().string()]: from the rightmost period of the filename,
    a period in first position not counting; "." and ".." have none *)
Definition extension (p : string) : string :=
  let f := filename p in
  if String.eqb f "." || String.eqb f ".." then ""
  else match f with
       | EmptyString => ""
       | String _ r =>
           match from_last_dot r with Some x => x | None => "" end
       end.

(** [lexically_normal] of an absolute path, on its elements: empty and dot
    elements vanish, a dot-dot removes the element before it (and vanishes
    directly under the root). [seen] is the reversed prefix built so far. *)
Fixpoint normal_elements (seen todo : list string) : list string :=
  match todo with
  | [] => rev seen
  | c :: r =>
      if String.eqb c "" || String.eqb c "." then normal_elements seen r
      else if String.eqb c ".." then normal_elements (tl seen) r
      else normal_elements (c :: seen) r
  end.

(** [lexically_normal] of a relative path, on its elements: empty and dot
    elements vanish, a dot-dot removes the name before it and stays where
    no name is left to remove. [seen] is the reversed prefix built so
    far. *)
Fixpoint normal_relative_elements (seen todo : list string) : list string :=
  match todo with
  | [] => rev seen
  | c :: r =>
      if String.eqb c "" || String.eqb c "."
      then normal_relative_elements seen r
      else if String.eqb c ".." then
        match seen with
        | s :: seen' =>
            if String.eqb s ".." then normal_relative_elements (c :: seen) r
            else normal_relative_elements seen' r
        | [] => normal_relative_elements [c] r
        end
      else normal_relative_elements (c :: seen) r
  end.

(** whether the leading element of [p] exists: the root directory, "." and
    ".." always do, a name does when [present] says so *)
Definition leading_element_exists (present : string -> bool) (p : string)
  : bool :=
  has_root_directory p ||
  match split p with
  | first :: _ =>
      String.eqb first "." || String.eqb first ".."
      || (negb (empty first) && present first)
  | [] => false
  end.

(** [std::filesystem::weakly_canonical(p).string()] on a POSIX tree without
    symbolic links, for a path [p] that ends in a file name, when the
    current directory is [/cwd_1/.../cwd_n] and [present] tells which names
    exist in it. The library makes canonical (hence absolute) the longest
    leading part of [p] that exists, appends the rest and normalises: when
    the leading element exists the result is the absolute normal form of
    [cwd/p]; when it does not, nothing is made absolute and the result is
    the normal form of [p] itself, still relative. *)
Definition posix_weakly_canonical (cwd : list string)
    (present : string -> bool) (p : string) : string :=
  if empty p then ""
  else if leading_element_exists present p then
    let elements :=
      if has_root_directory p then split p else (cwd ++ split p)%list in
    "/" ++ join "/" (normal_elements [] elements)
  else
    match normal_relative_elements [] (split p) with
    | [] => "."
    | elements => join "/" elements
    end.

(** a name a directory entry can carry and that [find("..")] lets through:
    non-empty, without separator, not ".", without two periods in a row *)
Definition plain_name (d : string) : bool :=
  negb (empty d) && negb (contains "/" d) && negb (String.eqb d ".")
  && negb (contains ".." d).

(* ------------------------------------------------------------------ *)
(** ** The environment: operating system and C++ runtime *)

(** result of a call that may throw [std::filesystem::filesystem_error];
    [what] is [e.what()] *)
Inductive outcome (A : Type) : Type :=
| Ret (a : A)
| Throw (what : string).
Arguments Ret {A}.
Arguments Throw {A}.

Definition bind {A B} (m : outcome A) (k : A -> outcome B) : outcome B :=
  match m with
  | Ret a => k a
  | Throw what => Throw what
  end.

Notation "x <- m ;; k" := (bind m (fun x => k))
  (at level 61, m at next level, right associativity).

(** [try { body } catch (const E& e) { return handler(e.what()); }] *)
Definition try_catch {A} (body : outcome A) (handler : string -> A) : A :=
  match body with
  | Ret a => a
  | Throw what => handler what
  end.

Record Env : Type := mkEnv {
  (** [std::filesystem::exists(p)] *)
  fs_exists : string -> outcome bool;
  (** [std::filesystem::is_regular_file(p)] *)
  fs_is_regular_file : string -> outcome bool;
  (** [std::filesystem::file_size(p)] *)
  fs_file_size : string -> outcome N;
  (** [std::filesystem::weakly_canonical(p).string()] *)
  fs_weakly_canonical : string -> outcome string;
  (** [std::filesystem::create_directories(p, ec)]: [None] when [ec] is
      clear, otherwise [ec.message()] *)
  fs_create_directories : string -> option string;
  (** [std::ifstream(p).good()] *)
  ifstream_good : string -> bool;
  (** [std::ofstream(p, out | app).good()] *)
  ofstream_app_good : string -> bool;
  (** [std::ofstream(p, out | trunc).is_open()] *)
  ofstream_trunc_is_open : string -> bool;
  (** [file.fail()] after [content] was sent to the stream on [p] *)
  ofstream_fail : string -> string -> bool;
  (** the n-th reading of [std::chrono::system_clock::now()] in a call *)
  system_clock_now : nat -> time_point;
  (** [std::to_string(double)] *)
  to_string_double : float -> string;
  (** what [operator<<(std::ostream&, double)] prints *)
  ostream_double : float -> string;
  (** indeterminate values of default-initialised scalar members *)
  indeterminate_double : float;
  indeterminate_bool : bool;
  indeterminate_int : Z
}.

(** [std::to_string(size_t)] *)
Definition to_string_size_t (n : N) : string :=
  DecimalString.NilEmpty.string_of_uint (N.to_uint n).

(** further calls into the operating system, used by the validation and
    archive code *)
Record EnvMore : Type := mkEnvMore {
  (** [(std::filesystem::status(p).permissions() & perms::owner_read)
      != perms::none] *)
  fs_owner_read : string -> outcome bool;
  (** [std::filesystem::create_directories(p)], the throwing overload *)
  fs_create_directories_throwing : string -> outcome unit;
  (** [std::ofstream(p, binary).is_open()], and [std::ofstream(p).is_open()] *)
  ofstream_is_open : string -> bool;
  (** [file.fail()] after [file.write(data)] on the stream on [p] *)
  ofstream_write_fail : string -> list Byte.byte -> bool;
  (** [file.fail()] after [file.close()] *)
  ofstream_close_fail : string -> bool;
  (** [std::ifstream(p, binary).is_open()] *)
  ifstream_binary_is_open : string -> bool;
  (** [file.read(buffer, n)] on the stream on [p]: the bytes it stored,
      then [file.fail()] and [file.eof()] *)
  ifstream_read : string -> N -> list Byte.byte * bool * bool;
  (** [std::filesystem::last_write_time(p)] brought to the system clock;
      [Throw] when the conversion block throws *)
  fs_last_write_time : string -> outcome time_point
}.

(* ------------------------------------------------------------------ *)
(** ** DataAccessEngineImpl  (data_access_engine_extracted.cpp) *)

Definition xml_declaration : string :=
  "<?xml version=" ++ q ++ "1.0" ++ q ++ " encoding=" ++ q ++ "UTF-8" ++ q
  ++ "?>" ++ nl.

Module DataAccessEngineImpl.

Definition loadClips (env : Env) (path trackId : string)
  : Result (list ClipInfo.t) :=
  try_catch
    (if empty path then Ret (makeError "Path cannot be empty") else
     if empty trackId then Ret (makeError "Track ID cannot be empty") else
     found <- fs_exists env path ;;
     if negb found
     then Ret (makeError ("File does not exist: " ++ path)) else
     regular <- fs_is_regular_file env path ;;
     if negb regular
     then Ret (makeError ("Path is not a regular file: " ++ path)) else
     if (256 <? size trackId)%N
     then Ret (makeError ("Track ID too long: "
                          ++ to_string_size_t (size trackId)
                          ++ " characters")) else
     let clips : list ClipInfo.t := [] in
     Ret (makeSuccess clips))
    (fun what => makeError ("Filesystem error loading clips: " ++ what)).

(** the characters [saveProject] sends to the file stream *)
Definition saveProject_content (env : Env) (project : ProjectInfo.t)
  : string :=
  xml_declaration
  ++ "<Project title=" ++ q ++ ProjectInfo.title project ++ q
  ++ " tempo=" ++ q ++ ostream_double env (ProjectInfo.tempo project) ++ q
  ++ ">" ++ nl
  ++ "  <!-- Generated by DAWProject Data Access Engine -->" ++ nl
  ++ "</Project>" ++ nl.

(** [saveProject(project, tracks, clips, path)]. [env] is the environment
    the call starts in, [env'] the one it sees once its file stream is
    closed. The second component is what was sent to the stream opened on
    [path], if one was opened. *)
Definition saveProject (env env' : Env) (project : ProjectInfo.t)
    (tracks : list TrackInfo.t) (clips : list ClipInfo.t) (path : string)
  : WriteResult * option string :=
  let on_filesystem_error what : WriteResult :=
    makeError ("Filesystem error saving project: " ++ what) in
  try_catch
    (if empty path
     then Ret (makeError "Output path cannot be empty", None) else
     if empty (ProjectInfo.title project)
     then Ret (makeError "Project title cannot be empty", None) else
     if (ProjectInfo.tempo project <=? 0)%float
        || (999 <? ProjectInfo.tempo project)%float
     then Ret (makeError ("Invalid tempo: "
                 ++ to_string_double env (ProjectInfo.tempo project)), None)
     else
     canonicalPath <- fs_weakly_canonical env path ;;
     let parentPath := parent_path canonicalPath in
     if contains ".." parentPath
     then Ret (makeError
                 "Invalid path: contains parent directory references", None)
     else
     let extension := extension path in
     if negb (String.eqb extension ".dawproject")
        && negb (String.eqb extension ".xml")
     then Ret (makeError ("Invalid file extension: " ++ extension
                          ++ ". Expected .dawproject or .xml"), None)
     else
     match fs_create_directories env parentPath with
     | Some message =>
         Ret (makeError ("Failed to create directories: " ++ message), None)
     | None =>
         if negb (ofstream_trunc_is_open env path)
         then Ret (makeError ("Failed to create file: " ++ path), None) else
         let content := saveProject_content env project in
         if ofstream_fail env path content
         then Ret (makeError "Failed to write project data to file",
                   Some content)
         else
         Ret (try_catch
                (found <- fs_exists env' path ;;
                 if negb found
                 then Ret (makeError "File was not created successfully")
                 else
                 fileSize <- fs_file_size env' path ;;
                 Ret (makeSuccess fileSize))
                on_filesystem_error,
              Some content)
     end)
    (fun what => (on_filesystem_error what, None)).

(** [100 * 1024 * 1024], the largest project file loaded *)
Definition MAX_FILE_SIZE : N := 100 * 1024 * 1024.

(** [50 * 1024 * 1024], above which validation warns *)
Definition MAX_VALIDATION_SIZE : N := 50 * 1024 * 1024.

Definition loadProjectInfo (env : Env) (path : string)
  : Result ProjectInfo.t :=
  try_catch
    (if empty path then Ret (makeError "Path cannot be empty") else
     found <- fs_exists env path ;;
     if negb found
     then Ret (makeError ("File does not exist: " ++ path)) else
     regular <- fs_is_regular_file env path ;;
     if negb regular
     then Ret (makeError ("Path is not a regular file: " ++ path)) else
     fileSize <- fs_file_size env path ;;
     if (MAX_FILE_SIZE <? fileSize)%N
     then Ret (makeError ("File too large: " ++ to_string_size_t fileSize
                          ++ " bytes")) else
     let info :=
       ProjectInfo.mk "Default Project" "Unknown Artist" "" "" 120%float
                      "4/4" "" (system_clock_now env 0)
                      (system_clock_now env 1) in
     Ret (makeSuccess info))
    (fun what =>
       makeError ("Filesystem error loading project info: " ++ what)).

Definition loadTracks (env : Env) (path : string)
  : Result (list TrackInfo.t) :=
  try_catch
    (if empty path then Ret (makeError "Path cannot be empty") else
     found <- fs_exists env path ;;
     if negb found
     then Ret (makeError ("File does not exist: " ++ path)) else
     regular <- fs_is_regular_file env path ;;
     if negb regular
     then Ret (makeError ("Path is not a regular file: " ++ path)) else
     if negb (ifstream_good env path)
     then Ret (makeError ("Cannot read file: " ++ path)) else
     let tracks : list TrackInfo.t := [] in
     Ret (makeSuccess tracks))
    (fun what => makeError ("Filesystem error loading tracks: " ++ what)).

(** [result.errors.push_back(message); result.isValid = false;] *)
Definition reject (result : ValidationResult.t) (message : string)
  : ValidationResult.t :=
  ValidationResult.mk false
    (push_back (ValidationResult.errors result) message)
    (ValidationResult.warnings result) (ValidationResult.context result).

(** [result.warnings.push_back(message);] *)
Definition warn (result : ValidationResult.t) (message : string)
  : ValidationResult.t :=
  ValidationResult.mk (ValidationResult.isValid result)
    (ValidationResult.errors result)
    (push_back (ValidationResult.warnings result) message)
    (ValidationResult.context result).

(** [validateFile(path)]; a [filesystem_error] is caught with the warnings
    gathered so far still in [result] *)
Definition validateFile (env : Env) (more : EnvMore) (path : string)
  : ValidationResult.t :=
  let result := ValidationResult.mk true [] [] path in
  let caught (result : ValidationResult.t) (what : string) :=
    reject result ("Filesystem error during validation: " ++ what) in
  if empty path then reject result "Path cannot be empty" else
  match fs_exists env path with
  | Throw what => caught result what
  | Ret found =>
  if negb found then reject result ("File does not exist: " ++ path) else
  match fs_is_regular_file env path with
  | Throw what => caught result what
  | Ret regular =>
  if negb regular
  then reject result ("Path is not a regular file: " ++ path) else
  match fs_file_size env path with
  | Throw what => caught result what
  | Ret fileSize =>
  let result :=
    if (MAX_VALIDATION_SIZE <? fileSize)%N
    then warn result ("File is very large (" ++ to_string_size_t fileSize
                      ++ " bytes), validation may be slow")
    else result in
  let result :=
    if (fileSize =? 0)%N then warn result "File is empty" else result in
  match fs_owner_read more path with
  | Throw what => caught result what
  | Ret readable =>
  if negb readable then reject result "File is not readable" else
  let extension := extension path in
  if negb (String.eqb extension ".dawproject")
     && negb (String.eqb extension ".xml")
     && negb (String.eqb extension ".zip")
  then warn result ("Unexpected file extension: " ++ extension)
  else result
  end end end end.

Definition isValidProjectFile (env : Env) (more : EnvMore) (path : string)
  : bool :=
  try_catch
    (if empty path then Ret false else
     found <- fs_exists env path ;;
     if negb found then Ret false else
     regular <- fs_is_regular_file env path ;;
     if negb regular then Ret false else
     readable <- fs_owner_read more path ;;
     if negb readable then Ret false else
     fileSize <- fs_file_size env path ;;
     if (fileSize =? 0)%N then Ret false else
     if (MAX_FILE_SIZE <? fileSize)%N then Ret false else
     let extension := extension path in
     if negb (String.eqb extension ".dawproject")
        && negb (String.eqb extension ".xml")
     then Ret false else
     Ret true)
    (fun _ => false).

End DataAccessEngineImpl.

(* ------------------------------------------------------------------ *)
(** ** ProjectReaderImpl *)

Module ProjectReaderImpl.

Record t : Type := mk {
  filePath_ : string;
  isOpen_ : bool;
  projectInfo_ : ProjectInfo.t;
  tracks_ : list TrackInfo.t;
  clips_ : list ClipInfo.t;
  currentTrackIndex_ : nat;
  currentClipIndex_ : nat
}.

(** the constructor; [None] when it throws [std::invalid_argument] *)
Definition make (env : Env) (path : string) : option t :=
  if empty path then None
  else Some (mk path false
               (ProjectInfo.mk "" "" "" "" (indeterminate_double env)
                               "" "" 0%Z 0%Z)
               [] [] 0 0).

(** the sample track [open()] puts into [tracks_] *)
Definition sample_track (env : Env) : TrackInfo.t :=
  TrackInfo.mk "track_1" "Audio Track 1" Audio "" 1%float 0%float
               (indeterminate_bool env) (indeterminate_bool env)
               (indeterminate_int env) None None.

Definition open (env : Env) (r : t) : bool * t :=
  if isOpen_ r then (true, r) else
  try_catch
    (found <- fs_exists env (filePath_ r) ;;
     if negb found then Ret (false, r) else
     regular <- fs_is_regular_file env (filePath_ r) ;;
     if negb regular then Ret (false, r) else
     if negb (ifstream_good env (filePath_ r)) then Ret (false, r) else
     let info := projectInfo_ r in
     let info' :=
       ProjectInfo.mk "Sample Project" "Test Artist"
                      (ProjectInfo.album info) (ProjectInfo.genre info)
                      120%float "4/4" (ProjectInfo.key info)
                      (system_clock_now env 0) (system_clock_now env 1) in
     Ret (true,
          mk (filePath_ r) true info' [sample_track env] []
             (currentTrackIndex_ r) (currentClipIndex_ r)))
    (fun _ =>
       (false,
        mk (filePath_ r) false (projectInfo_ r) (tracks_ r) (clips_ r)
           (currentTrackIndex_ r) (currentClipIndex_ r))).

Definition close (r : t) : t :=
  mk (filePath_ r) false (projectInfo_ r) (tracks_ r) (clips_ r) 0 0.

Definition isOpen (r : t) : bool := isOpen_ r.

Definition readProjectInfo (env : Env) (r : t) : Result ProjectInfo.t :=
  if negb (isOpen_ r) then makeError "Reader not open" else
  if empty (ProjectInfo.title (projectInfo_ r))
  then makeError "Project title is empty" else
  if (ProjectInfo.tempo (projectInfo_ r) <=? 0)%float
  then makeError ("Invalid project tempo: "
         ++ to_string_double env (ProjectInfo.tempo (projectInfo_ r)))
  else makeSuccess (projectInfo_ r).

(** [tracks_[currentTrackIndex_++]] is only reached with the index in range;
    [nth] needs a default all the same. *)
Definition readNextTrack (r : t) : Result TrackInfo.t * t :=
  if negb (isOpen_ r) then (makeError "Reader not open", r) else
  if (List.length (tracks_ r) <=? currentTrackIndex_ r)%nat
  then (makeError "No more tracks available", r) else
  match tracks_ r with
  | [] => (makeError "No tracks loaded", r)
  | _ :: _ =>
      if (List.length (tracks_ r) <=? currentTrackIndex_ r)%nat
      then (makeError "Track index out of bounds", r) else
      let track := nth (currentTrackIndex_ r) (tracks_ r) value_init in
      let r' := mk (filePath_ r) (isOpen_ r) (projectInfo_ r) (tracks_ r)
                   (clips_ r) (S (currentTrackIndex_ r))
                   (currentClipIndex_ r) in
      if empty (TrackInfo.id track)
      then (makeError "Track has empty ID", r')
      else (makeSuccess track, r')
  end.

Definition readNextClip (env : Env) (r : t) : Result ClipInfo.t * t :=
  if negb (isOpen_ r) then (makeError "Reader not open", r) else
  if (List.length (clips_ r) <=? currentClipIndex_ r)%nat
  then (makeError "No more clips available", r) else
  match clips_ r with
  | [] => (makeError "No clips loaded", r)
  | _ :: _ =>
      if (List.length (clips_ r) <=? currentClipIndex_ r)%nat
      then (makeError "Clip index out of bounds", r) else
      let clip := nth (currentClipIndex_ r) (clips_ r) value_init in
      let r' := mk (filePath_ r) (isOpen_ r) (projectInfo_ r) (tracks_ r)
                   (clips_ r) (currentTrackIndex_ r)
                   (S (currentClipIndex_ r)) in
      if empty (ClipInfo.id clip)
      then (makeError "Clip has empty ID", r')
      else if (ClipInfo.startTime clip <? 0)%float
      then (makeError ("Clip has invalid start time: "
              ++ to_string_double env (ClipInfo.startTime clip)), r')
      else (makeSuccess clip, r')
  end.

Definition hasMoreTracks (r : t) : bool :=
  (currentTrackIndex_ r <? List.length (tracks_ r))%nat.

Definition hasMoreClips (r : t) : bool :=
  (currentClipIndex_ r <? List.length (clips_ r))%nat.

Definition getTrackCount (r : t) : nat := List.length (tracks_ r).

Definition getClipCount (r : t) : nat := List.length (clips_ r).

(** a reader with the track cursor moved to [k] *)
Definition at_track (r : t) (k : nat) : t :=
  mk (filePath_ r) (isOpen_ r) (projectInfo_ r) (tracks_ r) (clips_ r)
     k (currentClipIndex_ r).

End ProjectReaderImpl.

(* ------------------------------------------------------------------ *)
(** ** ProjectWriterImpl *)

Module ProjectWriterImpl.

Record t : Type := mk {
  filePath_ : string;
  isOpen_ : bool;
  xmlBuffer_ : string
}.

(** [10 * 1024 * 1024], the buffer ceiling in bytes *)
Definition BUFFER_LIMIT : N := 10 * 1024 * 1024.

(** the constructor; [None] when it throws [std::invalid_argument] *)
Definition make (path : string) : option t :=
  if empty path then None else Some (mk path false "").

Definition open (env : Env) (w : t) : bool * t :=
  if isOpen_ w then (true, w) else
  try_catch
    (let parentPath := parent_path (filePath_ w) in
     create_failed <-
       (if empty parentPath then Ret false else
        found <- fs_exists env parentPath ;;
        if found then Ret false else
        match fs_create_directories env parentPath with
        | Some _ => Ret true
        | None => Ret false
        end) ;;
     if create_failed then Ret (false, w) else
     if negb (ofstream_app_good env (filePath_ w)) then Ret (false, w) else
     Ret (true,
          mk (filePath_ w) true (xml_declaration ++ "<Project>" ++ nl)))
    (fun _ => (false, w)).

Definition close (w : t) : t := mk (filePath_ w) false "".

Definition isOpen (w : t) : bool := isOpen_ w.

(** the fragment [writeProjectInfo] builds *)
Definition projectXml (env : Env) (project : ProjectInfo.t) : string :=
  "  <ProjectInfo title=" ++ q ++ ProjectInfo.title project ++ q
  ++ " tempo=" ++ q ++ to_string_double env (ProjectInfo.tempo project) ++ q
  ++ " artist=" ++ q ++ ProjectInfo.artist project ++ q ++ "/>" ++ nl.

(** the fragment [writeTrack] builds *)
Definition trackXml (track : TrackInfo.t) : string :=
  "  <Track id=" ++ q ++ TrackInfo.id track ++ q
  ++ " name=" ++ q ++ TrackInfo.name track ++ q ++ "/>" ++ nl.

(** the fragment [writeClip] builds *)
Definition clipXml (env : Env) (clip : ClipInfo.t) : string :=
  "  <Clip id=" ++ q ++ ClipInfo.id clip ++ q
  ++ " start=" ++ q ++ to_string_double env (ClipInfo.startTime clip) ++ q
  ++ "/>" ++ nl.

Definition writeProjectInfo (env : Env) (w : t) (project : ProjectInfo.t)
  : Result N * t :=
  if negb (isOpen_ w) then (makeError "Writer not open", w) else
  if empty (ProjectInfo.title project)
  then (makeError "Project title cannot be empty", w) else
  if (ProjectInfo.tempo project <=? 0)%float
     || (999 <? ProjectInfo.tempo project)%float
  then (makeError ("Invalid tempo: "
          ++ to_string_double env (ProjectInfo.tempo project)), w) else
  if (256 <? size (ProjectInfo.artist project))%N
  then (makeError ("Artist name too long: "
          ++ to_string_size_t (size (ProjectInfo.artist project))
          ++ " characters"), w) else
  let projectXml := projectXml env project in
  if (BUFFER_LIMIT <? size (xmlBuffer_ w) + size projectXml)%N
  then (makeError "XML buffer size limit exceeded", w) else
  let w' := mk (filePath_ w) (isOpen_ w) (xmlBuffer_ w ++ projectXml) in
  let bytesWritten := size projectXml in
  (makeSuccess bytesWritten, w').

Definition writeTrack (w : t) (track : TrackInfo.t) : Result N * t :=
  if negb (isOpen_ w) then (makeError "Writer not open", w) else
  if empty (TrackInfo.id track)
  then (makeError "Track ID cannot be empty", w) else
  if empty (TrackInfo.name track)
  then (makeError "Track name cannot be empty", w) else
  let trackXml := trackXml track in
  if (BUFFER_LIMIT <? size (xmlBuffer_ w) + size trackXml)%N
  then (makeError "XML buffer size limit exceeded", w) else
  let w' := mk (filePath_ w) (isOpen_ w) (xmlBuffer_ w ++ trackXml) in
  let bytesWritten := size trackXml in
  (makeSuccess bytesWritten, w').

Definition writeClip (env : Env) (w : t) (clip : ClipInfo.t)
  : Result N * t :=
  if negb (isOpen_ w) then (makeError "Writer not open", w) else
  if empty (ClipInfo.id clip)
  then (makeError "Clip ID cannot be empty", w) else
  if (ClipInfo.startTime clip <? 0)%float
  then (makeError "Clip start time cannot be negative", w) else
  let clipXml := clipXml env clip in
  if (BUFFER_LIMIT <? size (xmlBuffer_ w) + size clipXml)%N
  then (makeError "XML buffer size limit exceeded", w) else
  let w' := mk (filePath_ w) (isOpen_ w) (xmlBuffer_ w ++ clipXml) in
  let bytesWritten := size clipXml in
  (makeSuccess bytesWritten, w').

(** [writeTrack] called on each track of a list in turn *)
Fixpoint writeTracks (w : t) (tracks : list TrackInfo.t)
  : list (Result N) * t :=
  match tracks with
  | [] => ([], w)
  | track :: rest =>
      let (res, w') := writeTrack w track in
      let (ress, w'') := writeTracks w' rest in
      (res :: ress, w'')
  end.

(** [finalize()]. [env] is the environment the call starts in, [env'] the
    one it sees once its file stream is closed; the last component is what
    was sent to the stream on [filePath_], if one was opened. The closing
    tag is appended to [xmlBuffer_] before anything else happens. *)
Definition finalize (env env' : Env) (w : t)
  : Result N * t * option string :=
  if negb (isOpen_ w) then (makeError "Writer not open", w, None) else
  let w' := mk (filePath_ w) (isOpen_ w)
               (xmlBuffer_ w ++ "</Project>" ++ nl) in
  if negb (ofstream_trunc_is_open env (filePath_ w'))
  then (makeError "Failed to create output file", w', None) else
  if ofstream_fail env (filePath_ w') (xmlBuffer_ w')
  then (makeError "Failed to write XML data to file", w',
        Some (xmlBuffer_ w'))
  else
  (try_catch
     (found <- fs_exists env' (filePath_ w') ;;
      if negb found then Ret (makeError "Output file was not created") else
      let totalBytes := size (xmlBuffer_ w') in
      Ret (makeSuccess totalBytes))
     (fun what => makeError ("Filesystem error writing file: " ++ what)),
   w', Some (xmlBuffer_ w')).

(** one call of a write method *)
Inductive write_call : Type :=
| WriteProjectInfo (project : ProjectInfo.t)
| WriteTrack (track : TrackInfo.t)
| WriteClip (clip : ClipInfo.t).

(** the fragment a call serializes *)
Definition fragment_of (env : Env) (call : write_call) : string :=
  match call with
  | WriteProjectInfo project => projectXml env project
  | WriteTrack track => trackXml track
  | WriteClip clip => clipXml env clip
  end.

Definition write (env : Env) (w : t) (call : write_call) : Result N * t :=
  match call with
  | WriteProjectInfo project => writeProjectInfo env w project
  | WriteTrack track => writeTrack w track
  | WriteClip clip => writeClip env w clip
  end.

(** a sequence of write calls, in order: the results and the writer left *)
Fixpoint writes (env : Env) (w : t) (calls : list write_call)
  : list (Result N) * t :=
  match calls with
  | [] => ([], w)
  | call :: rest =>
      let (res, w') := write env w call in
      let (ress, w'') := writes env w' rest in
      (res :: ress, w'')
  end.

End ProjectWriterImpl.

(* ------------------------------------------------------------------ *)
(** ** DataAccessEngineImpl, the reader and writer factories *)

(** [createReader(path)]; [None] is [nullptr] *)
Definition createReader (env : Env) (path : string)
  : option ProjectReaderImpl.t :=
  if empty path then None else ProjectReaderImpl.make env path.

(** [createWriter(path)]; [None] is [nullptr] *)
Definition createWriter (env : Env) (path : string)
  : option ProjectWriterImpl.t :=
  try_catch
    (if empty path then Ret None else
     let extension := extension path in
     if negb (String.eqb extension ".dawproject")
        && negb (String.eqb extension ".xml")
     then Ret None else
     let parentPath := parent_path path in
     create_failed <-
       (if empty parentPath then Ret false else
        found <- fs_exists env parentPath ;;
        if found then Ret false else
        match fs_create_directories env parentPath with
        | Some _ => Ret true
        | None => Ret false
        end) ;;
     if create_failed then Ret None else
     Ret (ProjectWriterImpl.make path))
    (fun _ => None).

(** the writers a program can hold: created, then driven through the public
    methods *)
Inductive writer_reachable : ProjectWriterImpl.t -> Prop :=
| wreach_make (path : string) (w : ProjectWriterImpl.t) :
    ProjectWriterImpl.make path = Some w -> writer_reachable w
| wreach_open (env : Env) (w : ProjectWriterImpl.t) :
    writer_reachable w -> writer_reachable (snd (ProjectWriterImpl.open env w))
| wreach_close (w : ProjectWriterImpl.t) :
    writer_reachable w -> writer_reachable (ProjectWriterImpl.close w)
| wreach_write (env : Env) (w : ProjectWriterImpl.t)
    (call : ProjectWriterImpl.write_call) :
    writer_reachable w ->
    writer_reachable (snd (ProjectWriterImpl.write env w call))
| wreach_finalize (env env' : Env) (w : ProjectWriterImpl.t) :
    writer_reachable w ->
    writer_reachable (snd (fst (ProjectWriterImpl.finalize env env' w))).

(** the bytes the results of a sequence of calls report, added up *)
Definition bytes_reported (results : list (Result N)) : N :=
  fold_right (fun res total => (value res + total)%N) 0%N results.

(** the fragments of the calls that succeeded, in call order *)
Fixpoint fragments_written (env : Env)
    (calls : list ProjectWriterImpl.write_call) (results : list (Result N))
  : string :=
  match calls, results with
  | call :: calls', res :: results' =>
      (if success res then ProjectWriterImpl.fragment_of env call else "")
      ++ fragments_written env calls' results'
  | _, _ => ""
  end.


(** [readNextTrack()] called [n] times in a row: the results in call order
    and the reader left behind *)
Fixpoint readTracks (n : nat) (r : ProjectReaderImpl.t)
  : list (Result TrackInfo.t) * ProjectReaderImpl.t :=
  match n with
  | O => ([], r)
  | S n' =>
      let (res, r') := ProjectReaderImpl.readNextTrack r in
      let (ress, r'') := readTracks n' r' in
      (res :: ress, r'')
  end.

(* ------------------------------------------------------------------ *)
(** ** XMLDocument and its helpers  (data_access_engine.h,
       data_access_engine_impl.cpp) *)

(** [std::unordered_map<std::string, std::string>]: one entry per key; the
    order of the entries is not observable through the helpers below *)
Definition attribute_map := list (string * string).

(** [m.find(key)]: the mapped value, [None] for [m.end()] *)
Fixpoint map_find (m : attribute_map) (key : string) : option string :=
  match m with
  | [] => None
  | (k, v) :: rest => if String.eqb k key then Some v else map_find rest key
  end.

(** [m[key] = value] *)
Fixpoint map_assign (m : attribute_map) (key value : string)
  : attribute_map :=
  match m with
  | [] => [(key, value)]
  | (k, v) :: rest =>
      if String.eqb k key then (k, value) :: rest
      else (k, v) :: map_assign rest key value
  end.

#[warnings="-register-all"]
Inductive XMLDocument : Type :=
  mkXMLDocument (rootElementName : string) (attributes : attribute_map)
                (textContent : string) (children : list XMLDocument).

Definition rootElementName (doc : XMLDocument) : string :=
  match doc with mkXMLDocument n _ _ _ => n end.
Definition attributes (doc : XMLDocument) : attribute_map :=
  match doc with mkXMLDocument _ a _ _ => a end.
Definition textContent (doc : XMLDocument) : string :=
  match doc with mkXMLDocument _ _ t _ => t end.
Definition children (doc : XMLDocument) : list XMLDocument :=
  match doc with mkXMLDocument _ _ _ c => c end.

(** [std::find_if(first, last, pred) - first], [None] for [last] *)
Fixpoint find_if {A} (pred : A -> bool) (l : list A) : option nat :=
  match l with
  | [] => None
  | x :: rest =>
      if pred x then Some 0
      else match find_if pred rest with
           | Some i => Some (S i)
           | None => None
           end
  end.

(** [findChild(name)]: the position in [children] of the child pointed to,
    [None] for [nullptr] *)
Definition findChild (doc : XMLDocument) (name : string) : option nat :=
  find_if (fun child => String.eqb (rootElementName child) name)
          (children doc).

(** the positions, from [first] on, of the elements a range-for loop
    pushes *)
Fixpoint positions_where {A} (pred : A -> bool) (first : nat) (l : list A)
  : list nat :=
  match l with
  | [] => []
  | x :: rest =>
      if pred x then first :: positions_where pred (S first) rest
      else positions_where pred (S first) rest
  end.

(** [findChildren(name)]: the positions of the children pointed to, in the
    order of the result vector *)
Definition findChildren (doc : XMLDocument) (name : string) : list nat :=
  positions_where (fun child => String.eqb (rootElementName child) name)
                  0 (children doc).

Definition getAttribute (doc : XMLDocument) (name defaultValue : string)
  : string :=
  match map_find (attributes doc) name with
  | Some second => second
  | None => defaultValue
  end.

Definition setAttribute (doc : XMLDocument) (name value : string)
  : XMLDocument :=
  mkXMLDocument (rootElementName doc)
                (map_assign (attributes doc) name value)
                (textContent doc) (children doc).

(** every key occurs once *)
Definition unique_keys (m : attribute_map) : Prop := NoDup (map fst m).

(* ------------------------------------------------------------------ *)
(** ** ArchiveEntry and ZIPProcessorImpl  (data_access_engine.h,
       zip_processor_impl.cpp) *)

Module ArchiveEntry.
Record t : Type := mk {
  name : string;
  path : string;
  compressedSize : N;
  uncompressedSize : N;
  modified : time_point;
  isDirectory : bool
}.

Definition isValid (e : t) : bool := negb (empty (name e)).
End ArchiveEntry.

Definition backslash : ascii := "092"%char.

Module ZIPProcessorImpl.

Definition listEntries (env : Env) (more : EnvMore) (archivePath : string)
  : Result (list ArchiveEntry.t) :=
  if empty archivePath then makeError "Archive path cannot be empty" else
  try_catch
    (let entries : list ArchiveEntry.t := [] in
     found <- fs_exists env archivePath ;;
     if negb found
     then Ret (makeError ("Archive file does not exist: " ++ archivePath))
     else
     regular <- fs_is_regular_file env archivePath ;;
     if negb regular
     then Ret (makeError ("Path is not a regular file: " ++ archivePath))
     else
     fileSize <- fs_file_size env archivePath ;;
     if (fileSize =? 0)%N then Ret (makeSuccess entries) else
     let modified :=
       try_catch (sctp <- fs_last_write_time more archivePath ;; Ret sctp)
                 (fun _ => system_clock_now env 0) in
     let entry :=
       ArchiveEntry.mk "project.xml" "project.xml" fileSize fileSize
                       modified false in
     Ret (makeSuccess (push_back entries entry)))
    (fun what => makeError ("Filesystem error listing archive: " ++ what)).

(** [extractEntry(archivePath, entryName)]; the stream stores at most the
    [fileSize] bytes asked for, and [data] is cut to the bytes stored *)
Definition extractEntry (env : Env) (more : EnvMore)
    (archivePath entryName : string) : Result (list Byte.byte) :=
  if empty archivePath then makeError "Archive path cannot be empty" else
  if empty entryName then makeError "Entry name cannot be empty" else
  try_catch
    (found <- fs_exists env archivePath ;;
     if negb found
     then Ret (makeError ("Archive file does not exist: " ++ archivePath))
     else
     regular <- fs_is_regular_file env archivePath ;;
     if negb regular
     then Ret (makeError ("Path is not a regular file: " ++ archivePath))
     else
     fileSize <- fs_file_size env archivePath ;;
     if (fileSize =? 0)%N
     then Ret (makeError ("Archive file is empty: " ++ archivePath)) else
     let maxFileSize : N := (100 * 1024 * 1024)%N in
     if (maxFileSize <? fileSize)%N
     then Ret (makeError ("Archive file too large ("
                          ++ to_string_size_t fileSize ++ " bytes): "
                          ++ archivePath)) else
     if negb (ifstream_binary_is_open more archivePath)
     then Ret (makeError ("Failed to open archive file: " ++ archivePath))
     else
     let '(stored, failed, eof) := ifstream_read more archivePath fileSize in
     if failed && negb eof
     then Ret (makeError ("Failed to read archive content from: "
                          ++ archivePath)) else
     let data := firstn (N.to_nat fileSize) stored in
     Ret (makeSuccess data))
    (fun what => makeError ("Filesystem error extracting entry: " ++ what)).

(** a call [addEntry] makes into the file system or on its stream *)
Inductive file_operation : Type :=
| op_exists (p : string)
| op_create_directories (p : string)
| op_open (p : string)
| op_write (p : string) (data : list Byte.byte)
| op_close (p : string).

(** what a call of [addEntry] leaves behind: the result it returns, what
    was written to the stream on the archive path if one was opened, and
    the file operations it made, in the order it made them *)
Record added : Type := mkAdded {
  returned : WriteResult;
  written : option (list Byte.byte);
  operations : list file_operation
}.

(** [addEntry(archivePath, entryName, data)]. [env'] is the environment
    once the stream is closed. *)
Definition addEntry (env env' : Env) (more : EnvMore)
    (archivePath entryName : string) (data : list Byte.byte) : added :=
  if empty archivePath
  then mkAdded (makeError "Archive path cannot be empty") None [] else
  if empty entryName
  then mkAdded (makeError "Entry name cannot be empty") None [] else
  if contains "../" entryName
     || contains (".." ++ String backslash "") entryName
  then mkAdded (makeError ("Invalid entry name (path traversal detected): "
                           ++ entryName)) None [] else
  let caught what : WriteResult :=
    makeError ("Filesystem error adding entry: " ++ what) in
  let archiveDir := parent_path archivePath in
  let '(directory, checked) :=
    if empty archiveDir then (Ret tt, []) else
    match fs_exists env archiveDir with
    | Ret true => (Ret tt, [op_exists archiveDir])
    | Ret false =>
        (fs_create_directories_throwing more archiveDir,
         [op_exists archiveDir; op_create_directories archiveDir])
    | Throw what => (Throw what, [op_exists archiveDir])
    end in
  match directory with
  | Throw what => mkAdded (caught what) None checked
  | Ret _ =>
      let opened := (checked ++ [op_open archivePath])%list in
      if negb (ofstream_is_open more archivePath)
      then mkAdded (makeError ("Failed to create archive file: "
                               ++ archivePath)) None opened else
      let nonempty := match data with [] => false | _ :: _ => true end in
      let sent :=
        if nonempty then (opened ++ [op_write archivePath data])%list
        else opened in
      if nonempty && ofstream_write_fail more archivePath data
      then mkAdded (makeError ("Failed to write data to archive: "
                               ++ archivePath)) (Some data) sent else
      let closed := (sent ++ [op_close archivePath])%list in
      if ofstream_close_fail more archivePath
      then mkAdded (makeError ("Failed to close archive file: "
                               ++ archivePath)) (Some data) closed else
      mkAdded
        (try_catch
           (found <- fs_exists env' archivePath ;;
            if negb found
            then Ret (makeError ("Archive file was not created: "
                                 ++ archivePath))
            else Ret (makeSuccess (N.of_nat (List.length data))))
           caught)
        (Some data)
        (closed ++ [op_exists archivePath])%list
  end.

Definition isValidArchive (env : Env) (archivePath : string) : bool :=
  try_catch
    (if empty archivePath then Ret false else
     found <- fs_exists env archivePath ;;
     if negb found then Ret false else
     regular <- fs_is_regular_file env archivePath ;;
     if negb regular then Ret false else
     fileSize <- fs_file_size env archivePath ;;
     if (fileSize =? 0)%N then Ret false else
     Ret true)
    (fun _ => false).

End ZIPProcessorImpl.

(** the further system calls on a machine where every file is readable by
    its owner, streams open, write and close without failure, and a read
    stores as many zero bytes as it is asked for *)
Definition more_posix : EnvMore :=
  {| fs_owner_read := fun _ => Ret true;
     fs_create_directories_throwing := fun _ => Ret tt;
     ofstream_is_open := fun _ => true;
     ofstream_write_fail := fun _ _ => false;
     ofstream_close_fail := fun _ => false;
     ifstream_binary_is_open := fun _ => true;
     ifstream_read := fun _ n => (repeat Byte.x00 (N.to_nat n), false, false);
     fs_last_write_time := fun _ => Ret 1600000000%Z |}.

(** more of what holds of every reader a program can hold: no clip is ever
    loaded, the track cursor stays within the list, at most one track is
    loaded, and an open reader carries the sample project *)
Definition reader_invariant_more (r : ProjectReaderImpl.t) : Prop :=
  ProjectReaderImpl.clips_ r = [] /\
  ProjectReaderImpl.currentClipIndex_ r = 0 /\
  ProjectReaderImpl.currentTrackIndex_ r
    <= List.length (ProjectReaderImpl.tracks_ r) /\
  List.length (ProjectReaderImpl.tracks_ r) <= 1 /\
  (ProjectReaderImpl.isOpen_ r = true ->
   ProjectInfo.title (ProjectReaderImpl.projectInfo_ r) = "Sample Project"
   /\ ProjectInfo.tempo (ProjectReaderImpl.projectInfo_ r) = 120%float).

(** what [open()] puts into the buffer, 49 bytes *)
Definition document_header : string := xml_declaration ++ "<Project>" ++ nl.

(** what [finalize()] appends, 11 bytes *)
Definition closing_tag : string := "</Project>" ++ nl.

(** the validity flag tells whether the error list is empty *)
Definition coherent (r : ValidationResult.t) : Prop :=
  ValidationResult.isValid r = true <-> ValidationResult.errors r = [].

(** a result with one error and one warning *)
Definition result_one_error : ValidationResult.t :=
  ValidationResult.addWarning
    (ValidationResult.addError (ValidationResult.mk true [] [] "a") "bad")
    "odd".

(** a valid result with one warning *)
Definition result_one_warning : ValidationResult.t :=
  ValidationResult.addWarning (ValidationResult.mk true [] [] "b") "hm".

(** the shape every operation gives its [Result]: a success has no message
    and code 0; a failure has a message, the value-initialised payload and
    code -1 *)
Definition well_formed {T} `{ValueInit T} (r : Result T) : Prop :=
  if success r
  then errorMessage r = "" /\ errorCode r = 0%Z
  else errorMessage r <> "" /\ value r = value_init /\ errorCode r = (-1)%Z.

(** the readers a program can hold: constructed, then driven through the
    public methods, each call in whatever environment it meets *)
Inductive reader_reachable : ProjectReaderImpl.t -> Prop :=
| reach_make (env : Env) (path : string) (r : ProjectReaderImpl.t) :
    ProjectReaderImpl.make env path = Some r -> reader_reachable r
| reach_open (env : Env) (r : ProjectReaderImpl.t) :
    reader_reachable r ->
    reader_reachable (snd (ProjectReaderImpl.open env r))
| reach_close (r : ProjectReaderImpl.t) :
    reader_reachable r -> reader_reachable (ProjectReaderImpl.close r)
| reach_readNextTrack (r : ProjectReaderImpl.t) :
    reader_reachable r ->
    reader_reachable (snd (ProjectReaderImpl.readNextTrack r))
| reach_readNextClip (env : Env) (r : ProjectReaderImpl.t) :
    reader_reachable r ->
    reader_reachable (snd (ProjectReaderImpl.readNextClip env r)).

(** what holds of every such reader: closed means both cursors at zero,
    open means a track is loaded, and every loaded track has an id *)
Definition reader_invariant (r : ProjectReaderImpl.t) : Prop :=
  (ProjectReaderImpl.isOpen_ r = false ->
   ProjectReaderImpl.currentTrackIndex_ r = 0 /\
   ProjectReaderImpl.currentClipIndex_ r = 0) /\
  (ProjectReaderImpl.isOpen_ r = true ->
   ProjectReaderImpl.tracks_ r <> []) /\
  Forall (fun track => TrackInfo.id track <> "")
         (ProjectReaderImpl.tracks_ r).

(* ------------------------------------------------------------------ *)
(** ** Concrete environments and inputs used by the examples *)

(** A POSIX machine without symbolic links whose current directory is
    [/cwd_1/.../cwd_n], on which [present] tells the regular files that
    exist (by the path that names them; the only directories are those on
    the way to the current one), [sizes] their sizes, directories can be
    created under any non-empty path, and every stream operation succeeds.
    Of the number formatting only the two values the examples print are
    given, 120.0 and 0.0. *)
Definition posix_env (cwd : list string) (present : string -> bool)
    (sizes : string -> N) : Env :=
  {| fs_exists := fun p => Ret (present p);
     fs_is_regular_file := fun p => Ret (present p);
     fs_file_size := fun p => Ret (sizes p);
     fs_weakly_canonical :=
       fun p => Ret (posix_weakly_canonical cwd present p);
     fs_create_directories :=
       fun p => if empty p then Some "Invalid argument" else None;
     ifstream_good := present;
     ofstream_app_good := fun _ => true;
     ofstream_trunc_is_open := fun _ => true;
     ofstream_fail := fun _ _ => false;
     system_clock_now := fun n => (1700000000 + Z.of_nat n)%Z;
     to_string_double := fun t =>
       if (t =? 120)%float then "120.000000"
       else if (t =? 0)%float then "0.000000" else "?";
     ostream_double := fun t =>
       if (t =? 120)%float then "120"
       else if (t =? 0)%float then "0" else "?";
     indeterminate_double := 0%float;
     indeterminate_bool := false;
     indeterminate_int := 0%Z |}.

Definition project_dir : list string := ["home"; "user"; "project"].

(** nothing on disk yet *)
Definition env_empty_disk : Env :=
  posix_env project_dir (fun _ => false) (fun _ => 0%N).

(** [song.dawproject] is on disk *)
Definition env_song : Env :=
  posix_env project_dir (fun p => String.eqb p "song.dawproject")
            (fun _ => 1024%N).

(** [huge.dawproject] is on disk, a regular file of 200 MiB; [readable]
    tells whether a stream opened on it for reading is good *)
Definition env_huge (readable : bool) : Env :=
  let disk :=
    posix_env project_dir (fun p => String.eqb p "huge.dawproject")
              (fun _ => (200 * 1024 * 1024)%N) in
  {| fs_exists := fs_exists disk;
     fs_is_regular_file := fs_is_regular_file disk;
     fs_file_size := fs_file_size disk;
     fs_weakly_canonical := fs_weakly_canonical disk;
     fs_create_directories := fs_create_directories disk;
     ifstream_good := fun p => readable && ifstream_good disk p;
     ofstream_app_good := ofstream_app_good disk;
     ofstream_trunc_is_open := ofstream_trunc_is_open disk;
     ofstream_fail := ofstream_fail disk;
     system_clock_now := system_clock_now disk;
     to_string_double := to_string_double disk;
     ostream_double := ostream_double disk;
     indeterminate_double := indeterminate_double disk;
     indeterminate_bool := indeterminate_bool disk;
     indeterminate_int := indeterminate_int disk |}.

(** The path preconditions in the words of the specification, which gives
    [loadClips] those of [loadTracks]: the path is non-empty, exists, is a
    regular file of at most 100 MiB, and can be opened for reading. It is
    compared with the tests [loadClips] makes. *)
Definition spec_path_preconditions (env : Env) (path : string) : bool :=
  negb (empty path)
  && match fs_exists env path with Ret found => found | Throw _ => false end
  && match fs_is_regular_file env path with
     | Ret regular => regular
     | Throw _ => false
     end
  && match fs_file_size env path with
     | Ret fileSize => (fileSize <=? DataAccessEngineImpl.MAX_FILE_SIZE)%N
     | Throw _ => false
     end
  && ifstream_good env path.

Definition project_T : ProjectInfo.t :=
  ProjectInfo.mk "T" "" "" "" 120%float "4/4" "" 0%Z 0%Z.

(** the disk after [saveProject] wrote [../evil.xml] *)
Definition env_after_evil : Env :=
  posix_env project_dir (fun p => String.eqb p "../evil.xml")
    (fun _ => size (DataAccessEngineImpl.saveProject_content
                      env_empty_disk project_T)).

Definition track_of (id name : string) : TrackInfo.t :=
  TrackInfo.mk id name Audio "" 1%float 0%float false false 0%Z None None.

Definition clip_of (id : string) : ClipInfo.t :=
  ClipInfo.mk id "" "" 0%float 1%float 1%float 0%float 0%float None None.

(** free text holding a double quote between an a and a b *)
Definition text_with_quote : string := "a" ++ q ++ "b".

(** a writer just opened *)
Definition writer_opened : ProjectWriterImpl.t :=
  snd (ProjectWriterImpl.open env_empty_disk
         (ProjectWriterImpl.mk "out.dawproject" false "")).

(** a track whose name is a hundred bytes short of the ceiling *)
Definition track_big : TrackInfo.t :=
  track_of "t0" (fill (ProjectWriterImpl.BUFFER_LIMIT - 100) "x").

(** the writer after that track was written: 24 bytes are left *)
Definition writer_nearly_full : ProjectWriterImpl.t :=
  snd (ProjectWriterImpl.writeTracks writer_opened [track_big]).

(** the reader constructed on [song.dawproject] *)
Definition reader_made : ProjectReaderImpl.t :=
  ProjectReaderImpl.mk "song.dawproject" false
    (ProjectInfo.mk "" "" "" "" (indeterminate_double env_song) "" "" 0%Z 0%Z)
    [] [] 0 0.

(** that reader, opened *)
Definition reader_opened : ProjectReaderImpl.t :=
  snd (ProjectReaderImpl.open env_song reader_made).

(** a titled project at 120 BPM without a time signature *)
Definition project_no_signature : ProjectInfo.t :=
  ProjectInfo.mk "T" "" "" "" 120%float "" "" 0%Z 0%Z.

(** a project whose title holds a double quote *)
Definition project_quote : ProjectInfo.t :=
  ProjectInfo.mk text_with_quote "" "" "" 120%float "4/4" "" 0%Z 0%Z.

(** the disk after [saveProject] wrote [./out.xml] for [project_quote] *)
Definition env_after_out : Env :=
  posix_env project_dir
            (fun p => String.eqb p "./out.xml" || String.eqb p "out.xml")
    (fun _ => size (DataAccessEngineImpl.saveProject_content
                      env_empty_disk project_quote)).

(** an open reader whose first track has no id *)
Definition reader_blank_first : ProjectReaderImpl.t :=
  ProjectReaderImpl.mk "song.dawproject" true project_T
    [track_of "" "unnamed"; track_of "t2" "second"] [] 0 0.

(** a Project element with a version attribute and two Track children
    around a Clip child *)
Definition doc_project : XMLDocument :=
  mkXMLDocument "Project" [("version", "1.0")] ""
    [mkXMLDocument "Track" [("id", "track-001")] "" [];
     mkXMLDocument "Clip" [] "" [];
     mkXMLDocument "Track" [("id", "track-002")] "" []].

(** occurrences of a character in a string *)
Fixpoint count_char (c : ascii) (s : string) : nat :=
  match s with
  | EmptyString => 0
  | String d r => (if Ascii.eqb c d then 1 else 0) + count_char c r
  end.

(* ================================================================== *)
(** * Properties *)

(** C8: makeSuccess(v) is a success carrying [v], an empty message and code
    0; makeError(msg, code) is a failure carrying the value-initialised
    payload, [msg] and [code]. *)
Theorem Result_factories :
  forall (T : Type) `(ValueInit T) (v : T) (msg : string) (code : Z),
    (success (makeSuccess v) = true /\
     value (makeSuccess v) = v /\
     errorMessage (makeSuccess v) = "" /\
     errorCode (makeSuccess v) = 0%Z) /\
    (success (makeError_code (T:=T) msg code) = false /\
     value (makeError_code (T:=T) msg code) = value_init /\
     errorMessage (makeError_code (T:=T) msg code) = msg /\
     errorCode (makeError_code (T:=T) msg code) = code).
Proof.
  intros T dflt v msg code. unfold makeSuccess, makeError_code. cbn.
  repeat split.
Qed.

(* ------------------------------------------------------------------ *)
(** ** Facts about IEEE comparisons against 0.0 *)

Lemma Prim2SF_zero : Prim2SF 0%float = S754_zero false.
Proof. reflexivity. Qed.

(** [0.0 < t] excludes [t <= 0.0] *)
Lemma ltb_zero_not_leb (t : float) :
  (0 <? t)%float = true -> (t <=? 0)%float = false.
Proof.
  rewrite ltb_spec, leb_spec, Prim2SF_zero.
  destruct (Prim2SF t) as [s | s | | s m e]; try destruct s; cbn;
    congruence.
Qed.

(** a NaN tempo satisfies neither [0.0 < t] nor [t <= 0.0] *)
Lemma nan_unordered_zero :
  (0 <? nan)%float = false /\ (nan <=? 0)%float = false.
Proof. split; reflexivity. Qed.

(** [s.empty()] decides equality with the empty string *)
Lemma empty_true_iff (s : string) : empty s = true <-> s = "".
Proof. destruct s; cbn; split; congruence. Qed.

Lemma empty_false_iff (s : string) : empty s = false <-> s <> "".
Proof. destruct s; cbn; split; congruence. Qed.

(* ------------------------------------------------------------------ *)
(** ** DTO validation *)

Lemma isValid_intro (p : ProjectInfo.t) :
  ProjectInfo.title p <> "" -> (0 <? ProjectInfo.tempo p)%float = true ->
  ProjectInfo.isValid p = true.
Proof.
  intros Ht Hb. unfold ProjectInfo.isValid.
  apply empty_false_iff in Ht. rewrite Ht, Hb. reflexivity.
Qed.

(** C6: [p.isValid()] holds exactly when the title is non-empty and
    [0.0 < p.tempo] (the IEEE comparison, so a NaN tempo is invalid). *)
Theorem ProjectInfo_isValid_iff :
  forall p : ProjectInfo.t,
    ProjectInfo.isValid p = true <->
    ProjectInfo.title p <> "" /\ (0 <? ProjectInfo.tempo p)%float = true.
Proof.
  intro p. unfold ProjectInfo.isValid.
  rewrite andb_true_iff, negb_true_iff, empty_false_iff. reflexivity.
Qed.

(** C10: with a non-empty title, a tempo above 0 and an empty time
    signature, [isValid()] is true although [getValidationErrors()] reports
    exactly one error, the empty time signature. *)
Theorem isValid_but_errors_reported :
  forall p : ProjectInfo.t,
    ProjectInfo.title p <> "" ->
    (0 <? ProjectInfo.tempo p)%float = true ->
    ProjectInfo.timeSignature p = "" ->
    ProjectInfo.isValid p = true /\
    ProjectInfo.getValidationErrors p = ["Time signature cannot be empty"] /\
    ProjectInfo.getValidationErrors p <> [].
Proof.
  intros p Htitle Htempo Hsig.
  assert (Hv : ProjectInfo.isValid p = true)
    by (apply isValid_intro; assumption).
  assert (He : ProjectInfo.getValidationErrors p
               = ["Time signature cannot be empty"]).
  { unfold ProjectInfo.getValidationErrors.
    apply empty_false_iff in Htitle. rewrite Htitle.
    rewrite (ltb_zero_not_leb _ Htempo), Hsig. reflexivity. }
  split; [exact Hv | split; [exact He | rewrite He; discriminate]].
Qed.

(** C10, on a project titled T at 120 BPM with no time signature *)
Lemma isValid_but_errors_reported_witness :
  ProjectInfo.isValid project_no_signature = true /\
  ProjectInfo.getValidationErrors project_no_signature
    = ["Time signature cannot be empty"] /\
  ProjectInfo.getValidationErrors project_no_signature <> [].
Proof.
  apply (isValid_but_errors_reported project_no_signature).
  - discriminate.
  - reflexivity.
  - reflexivity.
Defined.

(* ------------------------------------------------------------------ *)
(** ** ValidationResult *)

(** C7: after [a.merge(b)] the errors are [a]'s followed by [b]'s, the
    warnings likewise (so both counts add up), and [isValid] is the
    conjunction of the two earlier flags. *)
Theorem ValidationResult_merge :
  forall a b : ValidationResult.t,
    let m := ValidationResult.merge a b in
    ValidationResult.errors m
      = (ValidationResult.errors a ++ ValidationResult.errors b)%list /\
    ValidationResult.warnings m
      = (ValidationResult.warnings a ++ ValidationResult.warnings b)%list /\
    List.length (ValidationResult.errors m)
      = List.length (ValidationResult.errors a)
        + List.length (ValidationResult.errors b) /\
    List.length (ValidationResult.warnings m)
      = List.length (ValidationResult.warnings a)
        + List.length (ValidationResult.warnings b) /\
    ValidationResult.isValid m
      = ValidationResult.isValid a && ValidationResult.isValid b.
Proof.
  intros a b m. subst m. unfold ValidationResult.merge. cbn.
  rewrite !length_app.
  repeat split.
  destruct (ValidationResult.isValid b), (ValidationResult.isValid a);
    reflexivity.
Qed.

(* ------------------------------------------------------------------ *)
(** ** String sizes *)

Lemma size_append (a b : string) : size (a ++ b) = (size a + size b)%N.
Proof.
  induction a as [| c a IH]; cbn.
  - reflexivity.
  - rewrite IH. lia.
Qed.

Lemma size_fill (n : N) (c : ascii) : size (fill n c) = n.
Proof.
  unfold fill. induction n as [| n IH] using N.peano_ind.
  - reflexivity.
  - rewrite N.iter_succ. cbn. rewrite IH. reflexivity.
Qed.

Lemma empty_fill (n : N) (c : ascii) : (0 < n)%N -> empty (fill n c) = false.
Proof.
  intro Hn. apply empty_false_iff. intro Heq.
  apply (f_equal size) in Heq. rewrite size_fill in Heq. cbn in Heq. lia.
Qed.

#[global] Arguments fill : simpl never.

(* ------------------------------------------------------------------ *)
(** ** loadClips *)

(** [loadClips] succeeds exactly when every one of its checks passes. *)
Lemma loadClips_success_iff (env : Env) (path trackId : string) :
  success (DataAccessEngineImpl.loadClips env path trackId) = true <->
  path <> "" /\ trackId <> "" /\
  fs_exists env path = Ret true /\
  fs_is_regular_file env path = Ret true /\
  (size trackId <= 256)%N.
Proof.
  unfold DataAccessEngineImpl.loadClips, try_catch, bind.
  destruct (empty path) eqn:Ep.
  { apply empty_true_iff in Ep. cbn.
    split; [discriminate | intros [H _]; congruence]. }
  apply empty_false_iff in Ep.
  destruct (empty trackId) eqn:Et.
  { apply empty_true_iff in Et. cbn.
    split; [discriminate | intros [_ [H _]]; congruence]. }
  apply empty_false_iff in Et.
  destruct (fs_exists env path) as [[|] | what]; cbn [negb];
    try (cbn; split; [discriminate | intros (_ & _ & H & _); congruence]).
  destruct (fs_is_regular_file env path) as [[|] | what]; cbn [negb];
    try (cbn; split;
         [discriminate | intros (_ & _ & _ & H & _); congruence]).
  destruct (N.ltb_spec 256 (size trackId)) as [Hlong | Hshort]; cbn.
  - split; [discriminate | intros (_ & _ & _ & _ & H); lia].
  - split; [intros _ | reflexivity].
    repeat split; assumption.
Qed.

(** C5: [loadClips] fails on an empty track id and on one longer than 256
    characters, whatever the path; when it succeeds the path is non-empty
    and names an existing regular file, of any size, and the track id is
    non-empty and at most 256 characters long. *)
Theorem loadClips_trackId_checks :
  forall (env : Env) (path trackId : string),
    let result := DataAccessEngineImpl.loadClips env path trackId in
    (trackId = "" -> success result = false) /\
    ((256 < size trackId)%N -> success result = false) /\
    (success result = true ->
       path <> "" /\
       fs_exists env path = Ret true /\
       fs_is_regular_file env path = Ret true /\
       trackId <> "" /\ (size trackId <= 256)%N).
Proof.
  intros env path trackId result. subst result.
  pose proof (loadClips_success_iff env path trackId) as Hiff.
  destruct (success (DataAccessEngineImpl.loadClips env path trackId)).
  - destruct (proj1 Hiff eq_refl) as (Hp & Ht & He & Hr & Hs).
    repeat split; try assumption.
    + intro H. contradiction.
    + intro H. lia.
  - repeat split; intros; congruence.
Qed.

(** C5 as the specification states it fails: [loadClips] succeeds on a
    regular file of 200 MiB, twice the 100 MiB of the path preconditions,
    and does so as well when that file cannot be opened for reading, so
    success does not give the path preconditions. *)
Lemma loadClips_succeeds_without_path_preconditions :
  (success (DataAccessEngineImpl.loadClips (env_huge true)
              "huge.dawproject" "track_1") = true /\
   fs_file_size (env_huge true) "huge.dawproject"
   = Ret (200 * 1024 * 1024)%N /\
   ifstream_good (env_huge true) "huge.dawproject" = true /\
   spec_path_preconditions (env_huge true) "huge.dawproject" = false) /\
  (success (DataAccessEngineImpl.loadClips (env_huge false)
              "huge.dawproject" "track_1") = true /\
   ifstream_good (env_huge false) "huge.dawproject" = false /\
   spec_path_preconditions (env_huge false) "huge.dawproject" = false) /\
  ~ (forall (env : Env) (path trackId : string),
        success (DataAccessEngineImpl.loadClips env path trackId) = true ->
        spec_path_preconditions env path = true /\
        trackId <> "" /\ (size trackId <= 256)%N).
Proof.
  split; [repeat split | split; [repeat split |]].
  intro Hspec.
  destruct (Hspec (env_huge true) "huge.dawproject" "track_1" eq_refl)
    as [Hpre _].
  discriminate Hpre.
Qed.

(** C5, at [song.dawproject]: the empty id and a 257-character id fail,
    the id [track_1] succeeds. *)
Lemma loadClips_trackId_checks_witness :
  success (DataAccessEngineImpl.loadClips env_song "song.dawproject" "")
    = false /\
  success (DataAccessEngineImpl.loadClips env_song "song.dawproject"
             (fill 257 "t")) = false /\
  ("song.dawproject" <> "" /\
   fs_exists env_song "song.dawproject" = Ret true /\
   fs_is_regular_file env_song "song.dawproject" = Ret true /\
   "track_1" <> "" /\ (size "track_1" <= 256)%N).
Proof.
  split; [| split].
  - exact (proj1 (loadClips_trackId_checks env_song "song.dawproject" "")
                 eq_refl).
  - apply (proj1 (proj2 (loadClips_trackId_checks env_song "song.dawproject"
                           (fill 257 "t")))).
    rewrite size_fill. reflexivity.
  - apply (proj2 (proj2 (loadClips_trackId_checks env_song "song.dawproject"
                           "track_1"))).
    reflexivity.
Defined.

(* ------------------------------------------------------------------ *)
(** ** The writer's buffer ceiling *)

Section WriterCeiling.
Import ProjectWriterImpl.

(** no write method opens or closes the writer *)
Lemma writeTrack_isOpen (w : t) (track : TrackInfo.t) :
  isOpen_ (snd (writeTrack w track)) = isOpen_ w.
Proof.
  unfold writeTrack.
  destruct (isOpen_ w) eqn:Ho; cbn [negb]; [| exact Ho].
  destruct (empty (TrackInfo.id track)); [exact Ho |].
  destruct (empty (TrackInfo.name track)); [exact Ho |].
  cbv zeta.
  destruct (BUFFER_LIMIT <? _)%N; cbn; congruence.
Qed.

Lemma writeTracks_isOpen (tracks : list TrackInfo.t) :
  forall w, isOpen_ (snd (writeTracks w tracks)) = isOpen_ w.
Proof.
  induction tracks as [| track rest IH]; intro w; cbn.
  - reflexivity.
  - pose proof (writeTrack_isOpen w track) as H1.
    destruct (writeTrack w track) as [res w1]. cbn in H1.
    pose proof (IH w1) as H2.
    destruct (writeTracks w1 rest) as [ress w2]. cbn in *. congruence.
Qed.

(** a fragment that does not fit is refused and the writer is untouched *)
Lemma writeTrack_over_limit (w : t) (track : TrackInfo.t) :
  isOpen_ w = true ->
  (BUFFER_LIMIT < size (xmlBuffer_ w) + size (trackXml track))%N ->
  success (fst (writeTrack w track)) = false /\
  snd (writeTrack w track) = w /\
  (TrackInfo.id track <> "" -> TrackInfo.name track <> "" ->
   fst (writeTrack w track) = makeError "XML buffer size limit exceeded").
Proof.
  intros Ho Hover. unfold writeTrack. rewrite Ho. cbn [negb].
  destruct (empty (TrackInfo.id track)) eqn:Ei.
  { apply empty_true_iff in Ei. cbn. repeat split. congruence. }
  destruct (empty (TrackInfo.name track)) eqn:En.
  { apply empty_true_iff in En. cbn. repeat split. congruence. }
  cbv zeta. apply N.ltb_lt in Hover. rewrite Hover. cbn. repeat split.
Qed.

(** a valid track whose fragment fits is appended; the result is the
    fragment's length *)
Lemma writeTrack_within_limit (w : t) (track : TrackInfo.t) :
  isOpen_ w = true ->
  TrackInfo.id track <> "" -> TrackInfo.name track <> "" ->
  (size (xmlBuffer_ w) + size (trackXml track) <= BUFFER_LIMIT)%N ->
  writeTrack w track
  = (makeSuccess (size (trackXml track)),
     mk (filePath_ w) true (xmlBuffer_ w ++ trackXml track)).
Proof.
  intros Ho Hi Hn Hfit. unfold writeTrack. rewrite Ho. cbn [negb].
  apply empty_false_iff in Hi, Hn. rewrite Hi, Hn. cbv zeta.
  apply N.ltb_ge in Hfit. rewrite Hfit. reflexivity.
Qed.

(** the buffer of an open writer never grows past the ceiling *)
Lemma writeTrack_keeps_ceiling (w : t) (track : TrackInfo.t) :
  (size (xmlBuffer_ w) <= BUFFER_LIMIT)%N ->
  (size (xmlBuffer_ (snd (writeTrack w track))) <= BUFFER_LIMIT)%N.
Proof.
  intro Hinv. unfold writeTrack.
  destruct (negb (isOpen_ w)); [exact Hinv |].
  destruct (empty (TrackInfo.id track)); [exact Hinv |].
  destruct (empty (TrackInfo.name track)); [exact Hinv |].
  cbv zeta.
  destruct (N.ltb_spec BUFFER_LIMIT
              (size (xmlBuffer_ w) + size (trackXml track))) as [Hl | Hl];
    cbn; [exact Hinv | rewrite size_append; exact Hl].
Qed.

End WriterCeiling.

(** the freshly opened writer takes a track that nearly fills the buffer *)
Lemma big_track_fits :
  ProjectWriterImpl.writeTrack writer_opened track_big
  = (makeSuccess (size (ProjectWriterImpl.trackXml track_big)),
     ProjectWriterImpl.mk "out.dawproject" true
       (ProjectWriterImpl.xmlBuffer_ writer_opened
        ++ ProjectWriterImpl.trackXml track_big)).
Proof.
  apply (writeTrack_within_limit writer_opened track_big).
  - reflexivity.
  - discriminate.
  - apply empty_false_iff. apply empty_fill. reflexivity.
  - unfold ProjectWriterImpl.trackXml, track_big, track_of.
    cbn [TrackInfo.id TrackInfo.name].
    rewrite !size_append, size_fill. vm_compute. discriminate.
Qed.

(** C3: on a writer that is open, after any sequence of [writeTrack] calls,
    a [writeTrack] whose fragment would take the buffer past 10 MiB returns
    an error and leaves the writer, hence the buffer's contents and size,
    as they were before the call. *)
Theorem writeTrack_buffer_ceiling :
  forall (w0 : ProjectWriterImpl.t) (tracks : list TrackInfo.t)
         (track : TrackInfo.t),
    ProjectWriterImpl.isOpen w0 = true ->
    let w := snd (ProjectWriterImpl.writeTracks w0 tracks) in
    (10 * 1024 * 1024
       < size (ProjectWriterImpl.xmlBuffer_ w)
         + size (ProjectWriterImpl.trackXml track))%N ->
    let result := fst (ProjectWriterImpl.writeTrack w track) in
    let w' := snd (ProjectWriterImpl.writeTrack w track) in
    success result = false /\
    ProjectWriterImpl.xmlBuffer_ w' = ProjectWriterImpl.xmlBuffer_ w /\
    size (ProjectWriterImpl.xmlBuffer_ w')
      = size (ProjectWriterImpl.xmlBuffer_ w) /\
    w' = w.
Proof.
  intros w0 tracks track Hopen w Hover result w'. subst result w'.
  assert (Ho : ProjectWriterImpl.isOpen_ w = true).
  { subst w. rewrite writeTracks_isOpen. exact Hopen. }
  destruct (writeTrack_over_limit w track Ho Hover) as (Hfail & Hsame & _).
  rewrite Hsame. repeat split. exact Hfail.
Qed.

(** C3, after a first track that leaves 24 bytes, on a 27-byte fragment *)
Lemma writeTrack_buffer_ceiling_witness :
  success (fst (ProjectWriterImpl.writeTrack writer_nearly_full
                  (track_of "t" "n"))) = false /\
  ProjectWriterImpl.xmlBuffer_
    (snd (ProjectWriterImpl.writeTrack writer_nearly_full (track_of "t" "n")))
    = ProjectWriterImpl.xmlBuffer_ writer_nearly_full /\
  size (ProjectWriterImpl.xmlBuffer_
          (snd (ProjectWriterImpl.writeTrack writer_nearly_full
                  (track_of "t" "n"))))
    = size (ProjectWriterImpl.xmlBuffer_ writer_nearly_full) /\
  snd (ProjectWriterImpl.writeTrack writer_nearly_full (track_of "t" "n"))
    = writer_nearly_full.
Proof.
  apply (writeTrack_buffer_ceiling writer_opened [track_big]
           (track_of "t" "n")).
  - reflexivity.
  - cbn [ProjectWriterImpl.writeTracks]. rewrite big_track_fits.
    cbn [snd ProjectWriterImpl.xmlBuffer_].
    unfold ProjectWriterImpl.trackXml at 1, track_big, track_of.
    cbn [TrackInfo.id TrackInfo.name].
    rewrite !size_append, size_fill. vm_compute. reflexivity.
Defined.

(* ------------------------------------------------------------------ *)
(** ** The reader's cursor *)

Section ReaderCursor.
Import ProjectReaderImpl.

Lemma at_track_current (r : t) : at_track r (currentTrackIndex_ r) = r.
Proof. destruct r; reflexivity. Qed.

(** one read inside the list returns the track under the cursor and moves
    the cursor by one *)
Lemma readNextTrack_in_range (r : t) (k : nat) (track : TrackInfo.t) :
  isOpen_ r = true ->
  nth_error (tracks_ r) k = Some track ->
  TrackInfo.id track <> "" ->
  readNextTrack (at_track r k) = (makeSuccess track, at_track r (S k)).
Proof.
  intros Ho Hnth Hid.
  assert (Hlt : k < List.length (tracks_ r))
    by (apply nth_error_Some; congruence).
  unfold readNextTrack, at_track. cbn [isOpen_ tracks_ currentTrackIndex_
    filePath_ projectInfo_ clips_ currentClipIndex_].
  rewrite Ho. cbn [negb].
  assert (Hle : (List.length (tracks_ r) <=? k)%nat = false)
    by (apply Nat.leb_gt; exact Hlt).
  rewrite Hle.
  destruct (tracks_ r) as [| t0 ts] eqn:Hts; [cbn in Hlt; lia |].
  rewrite (nth_error_nth _ _ value_init Hnth).
  apply empty_false_iff in Hid. rewrite Hid. reflexivity.
Qed.

(** a read at or past the end fails and leaves the reader alone *)
Lemma readNextTrack_at_end (r : t) :
  isOpen_ r = true ->
  List.length (tracks_ r) <= currentTrackIndex_ r ->
  readNextTrack r = (makeError "No more tracks available", r).
Proof.
  intros Ho Hend. unfold readNextTrack. rewrite Ho. cbn [negb].
  apply Nat.leb_le in Hend. rewrite Hend. reflexivity.
Qed.

Lemma skipn_cons_nth_error {A} (l : list A) (k : nat) (x : A) :
  nth_error l k = Some x -> skipn k l = x :: skipn (S k) l.
Proof.
  revert k. induction l as [| a l IH]; intros [| k] H; cbn in *;
    try discriminate.
  - congruence.
  - apply IH. exact H.
Qed.

(** [n] reads from cursor [k] return the next [n] tracks in list order *)
Lemma readTracks_from (r : t) :
  isOpen_ r = true ->
  Forall (fun track => TrackInfo.id track <> "") (tracks_ r) ->
  forall n k,
    k + n <= List.length (tracks_ r) ->
    readTracks n (at_track r k)
    = (map makeSuccess (firstn n (skipn k (tracks_ r))),
       at_track r (k + n)).
Proof.
  intros Ho Hids. induction n as [| n IH]; intros k Hk.
  - cbn. rewrite Nat.add_0_r. reflexivity.
  - destruct (nth_error (tracks_ r) k) as [track |] eqn:Hnth;
      [| apply nth_error_None in Hnth; lia].
    assert (Hid : TrackInfo.id track <> "").
    { rewrite Forall_forall in Hids. apply Hids.
      eapply nth_error_In; eassumption. }
    cbn [readTracks].
    rewrite (readNextTrack_in_range r k track Ho Hnth Hid).
    rewrite (IH (S k)) by lia.
    rewrite (skipn_cons_nth_error _ _ _ Hnth).
    replace (S k + n) with (k + S n) by lia. reflexivity.
Qed.

(** while the cursor is inside the list there are more tracks *)
Lemma hasMoreTracks_iff (r : t) :
  hasMoreTracks r = true <-> currentTrackIndex_ r < List.length (tracks_ r).
Proof. unfold hasMoreTracks. apply Nat.ltb_lt. Qed.

End ReaderCursor.

(** C4: on an open reader whose cursor is at the start and whose [N] loaded
    tracks all have an id, [N] calls of [readNextTrack()] succeed and return
    the tracks in list order; before each of them [hasMoreTracks()] is true
    and the cursor counts the calls made; after the [N]-th call
    [hasMoreTracks()] is false and the next call fails with "No more tracks
    available", leaving the reader where it is. *)
Theorem readNextTrack_exactly_N :
  forall r : ProjectReaderImpl.t,
    ProjectReaderImpl.isOpen r = true ->
    ProjectReaderImpl.currentTrackIndex_ r = 0 ->
    Forall (fun track => TrackInfo.id track <> "")
           (ProjectReaderImpl.tracks_ r) ->
    let N := List.length (ProjectReaderImpl.tracks_ r) in
    let r_end := snd (readTracks N r) in
    fst (readTracks N r) = map makeSuccess (ProjectReaderImpl.tracks_ r) /\
    (forall k, k < N ->
       ProjectReaderImpl.hasMoreTracks (snd (readTracks k r)) = true /\
       ProjectReaderImpl.currentTrackIndex_ (snd (readTracks k r)) = k) /\
    ProjectReaderImpl.currentTrackIndex_ r_end = N /\
    ProjectReaderImpl.hasMoreTracks r_end = false /\
    ProjectReaderImpl.readNextTrack r_end
      = (makeError "No more tracks available", r_end).
Proof.
  intros r Ho Hcur Hids N r_end.
  assert (Hr : r = ProjectReaderImpl.at_track r 0)
    by (rewrite <- Hcur; symmetry; apply at_track_current).
  assert (Hrun : forall k, k <= N ->
            readTracks k r
            = (map makeSuccess (firstn k (ProjectReaderImpl.tracks_ r)),
               ProjectReaderImpl.at_track r k)).
  { intros k Hk. rewrite Hr at 1.
    rewrite (readTracks_from r Ho Hids k 0) by (cbn; exact Hk).
    reflexivity. }
  assert (Hend : r_end = ProjectReaderImpl.at_track r N)
    by (subst r_end; rewrite (Hrun N) by lia; reflexivity).
  split; [| split; [| split; [| split]]].
  - rewrite (Hrun N) by lia. cbn [fst]. subst N.
    rewrite firstn_all. reflexivity.
  - intros k Hk. rewrite (Hrun k) by lia. cbn [snd]. split.
    + apply hasMoreTracks_iff. exact Hk.
    + reflexivity.
  - rewrite Hend. reflexivity.
  - rewrite Hend. unfold ProjectReaderImpl.hasMoreTracks. cbn.
    apply Nat.ltb_irrefl.
  - rewrite Hend. apply readNextTrack_at_end.
    + exact Ho.
    + cbn. subst N. lia.
Qed.

(** C4, on the reader just opened on [song.dawproject]: one track *)
Lemma readNextTrack_exactly_N_witness :
  fst (readTracks 1 reader_opened)
    = [makeSuccess (ProjectReaderImpl.sample_track env_song)] /\
  ProjectReaderImpl.hasMoreTracks reader_opened = true /\
  ProjectReaderImpl.hasMoreTracks (snd (readTracks 1 reader_opened)) = false /\
  ProjectReaderImpl.readNextTrack (snd (readTracks 1 reader_opened))
    = (makeError "No more tracks available",
       snd (readTracks 1 reader_opened)).
Proof.
  assert (Hids : Forall (fun track => TrackInfo.id track <> "")
                        (ProjectReaderImpl.tracks_ reader_opened))
    by (repeat constructor; discriminate).
  destruct (readNextTrack_exactly_N reader_opened eq_refl eq_refl Hids)
    as (Hall & Hbefore & _ & Hafter & Hnext).
  split; [exact Hall | split; [| split; [exact Hafter | exact Hnext]]].
  exact (proj1 (Hbefore 0 (Nat.lt_0_succ 0))).
Defined.

(* ------------------------------------------------------------------ *)
(** ** Opening and closing the reader *)

(** a reader is constructed closed, with both cursors at the start *)
Lemma make_closed (env : Env) (path : string) (r : ProjectReaderImpl.t) :
  ProjectReaderImpl.make env path = Some r ->
  ProjectReaderImpl.isOpen_ r = false /\
  ProjectReaderImpl.currentTrackIndex_ r = 0 /\
  ProjectReaderImpl.currentClipIndex_ r = 0.
Proof.
  unfold ProjectReaderImpl.make. destruct (empty path); [discriminate |].
  intro H. injection H as <-. repeat split.
Qed.

(** [open()] on a closed reader, when it succeeds, loads the one sample
    track and no clip and keeps the cursors *)
Lemma open_closed_loads (env : Env) (r r' : ProjectReaderImpl.t) :
  ProjectReaderImpl.isOpen_ r = false ->
  ProjectReaderImpl.open env r = (true, r') ->
  ProjectReaderImpl.isOpen_ r' = true /\
  ProjectReaderImpl.tracks_ r' = [ProjectReaderImpl.sample_track env] /\
  ProjectReaderImpl.clips_ r' = [] /\
  ProjectReaderImpl.currentTrackIndex_ r'
    = ProjectReaderImpl.currentTrackIndex_ r /\
  ProjectReaderImpl.currentClipIndex_ r'
    = ProjectReaderImpl.currentClipIndex_ r.
Proof.
  intros Hc. unfold ProjectReaderImpl.open, try_catch, bind. rewrite Hc.
  destruct (fs_exists env _) as [[|] | ?]; cbn [negb]; try discriminate.
  destruct (fs_is_regular_file env _) as [[|] | ?]; cbn [negb];
    try discriminate.
  destruct (ifstream_good env _); cbn [negb]; try discriminate.
  intro H. injection H as <-. repeat split.
Qed.

(** [open()] reports success only on an open reader *)
Lemma open_true_isOpen (env : Env) (r r' : ProjectReaderImpl.t) :
  ProjectReaderImpl.open env r = (true, r') ->
  ProjectReaderImpl.isOpen_ r' = true.
Proof.
  destruct (ProjectReaderImpl.isOpen_ r) eqn:Ho.
  - unfold ProjectReaderImpl.open. rewrite Ho. intro H.
    injection H as <-. exact Ho.
  - intro H. exact (proj1 (open_closed_loads env r r' Ho H)).
Qed.

(** every read fails on a closed reader and leaves it as it is *)
Lemma closed_reads_fail (env : Env) (c : ProjectReaderImpl.t) :
  ProjectReaderImpl.isOpen_ c = false ->
  ProjectReaderImpl.readNextTrack c = (makeError "Reader not open", c) /\
  ProjectReaderImpl.readNextClip env c = (makeError "Reader not open", c) /\
  ProjectReaderImpl.readProjectInfo env c = makeError "Reader not open".
Proof.
  intro Hc.
  unfold ProjectReaderImpl.readNextTrack, ProjectReaderImpl.readNextClip,
    ProjectReaderImpl.readProjectInfo.
  rewrite Hc. repeat split.
Qed.

(** C9: once a reader that was opened with at least one track loaded is
    closed, it keeps its track and clip lists with both cursors back at
    zero, so [hasMoreTracks()] is true and [hasMoreClips()] tells whether
    any clip is loaded, while [readNextTrack()], [readNextClip()] and
    [readProjectInfo()] all fail with "Reader not open". *)
Theorem closed_reader_still_reports_tracks :
  forall (env : Env) (r0 r : ProjectReaderImpl.t),
    ProjectReaderImpl.open env r0 = (true, r) ->
    ProjectReaderImpl.tracks_ r <> [] ->
    let c := ProjectReaderImpl.close r in
    ProjectReaderImpl.isOpen r = true /\
    ProjectReaderImpl.isOpen c = false /\
    ProjectReaderImpl.tracks_ c = ProjectReaderImpl.tracks_ r /\
    ProjectReaderImpl.clips_ c = ProjectReaderImpl.clips_ r /\
    ProjectReaderImpl.currentTrackIndex_ c = 0 /\
    ProjectReaderImpl.currentClipIndex_ c = 0 /\
    ProjectReaderImpl.hasMoreTracks c = true /\
    ProjectReaderImpl.hasMoreClips c
      = (0 <? List.length (ProjectReaderImpl.clips_ r))%nat /\
    ProjectReaderImpl.readNextTrack c = (makeError "Reader not open", c) /\
    ProjectReaderImpl.readNextClip env c
      = (makeError "Reader not open", c) /\
    ProjectReaderImpl.readProjectInfo env c = makeError "Reader not open".
Proof.
  intros env r0 r Hopen Htracks c.
  pose proof (open_true_isOpen env r0 r Hopen) as Ho.
  destruct (closed_reads_fail env c eq_refl) as (Ht & Hc & Hp).
  repeat split; try assumption.
  unfold ProjectReaderImpl.hasMoreTracks. subst c. cbn.
  destruct (ProjectReaderImpl.tracks_ r); [contradiction | reflexivity].
Qed.

(** C9, on the reader opened on [song.dawproject] and closed again *)
Lemma closed_reader_still_reports_tracks_witness :
  ProjectReaderImpl.hasMoreTracks (ProjectReaderImpl.close reader_opened)
    = true /\
  ProjectReaderImpl.hasMoreClips (ProjectReaderImpl.close reader_opened)
    = false /\
  fst (ProjectReaderImpl.readNextTrack
         (ProjectReaderImpl.close reader_opened))
    = makeError "Reader not open".
Proof.
  assert (Hne : ProjectReaderImpl.tracks_ reader_opened <> [])
    by discriminate.
  destruct (closed_reader_still_reports_tracks env_song
              reader_made reader_opened eq_refl Hne)
    as (_ & _ & _ & _ & _ & _ & Hmore & Hclips & Hread & _).
  split; [exact Hmore | split; [exact Hclips |]].
  rewrite Hread. reflexivity.
Defined.

(* ------------------------------------------------------------------ *)
(** ** Readers as programs meet them *)

(** case analysis on the tests a method body goes through *)
Ltac case_tests :=
  repeat match goal with
    | |- context [if ?b then _ else _] => destruct b eqn:?
    | |- context [match ?l with [] => _ | _ :: _ => _ end] =>
        destruct l eqn:?
    end.

Lemma readNextTrack_keeps (r : ProjectReaderImpl.t) :
  ProjectReaderImpl.isOpen_ (snd (ProjectReaderImpl.readNextTrack r))
    = ProjectReaderImpl.isOpen_ r /\
  ProjectReaderImpl.tracks_ (snd (ProjectReaderImpl.readNextTrack r))
    = ProjectReaderImpl.tracks_ r /\
  (ProjectReaderImpl.isOpen_ r = false ->
   snd (ProjectReaderImpl.readNextTrack r) = r).
Proof.
  unfold ProjectReaderImpl.readNextTrack.
  destruct (ProjectReaderImpl.isOpen_ r) eqn:Ho; cbn [negb];
    [| cbn; rewrite ?Ho; repeat split].
  case_tests; cbn; rewrite ?Ho; repeat split; congruence.
Qed.

Lemma readNextClip_keeps (env : Env) (r : ProjectReaderImpl.t) :
  ProjectReaderImpl.isOpen_ (snd (ProjectReaderImpl.readNextClip env r))
    = ProjectReaderImpl.isOpen_ r /\
  ProjectReaderImpl.tracks_ (snd (ProjectReaderImpl.readNextClip env r))
    = ProjectReaderImpl.tracks_ r /\
  (ProjectReaderImpl.isOpen_ r = false ->
   snd (ProjectReaderImpl.readNextClip env r) = r).
Proof.
  unfold ProjectReaderImpl.readNextClip.
  destruct (ProjectReaderImpl.isOpen_ r) eqn:Ho; cbn [negb];
    [| cbn; rewrite ?Ho; repeat split].
  case_tests; cbn; rewrite ?Ho; repeat split; congruence.
Qed.

Lemma sample_track_has_id (env : Env) :
  Forall (fun track => TrackInfo.id track <> "")
         [ProjectReaderImpl.sample_track env].
Proof. repeat constructor. discriminate. Qed.

(** the invariant holds of every reader a program can hold *)
Lemma reachable_invariant (r : ProjectReaderImpl.t) :
  reader_reachable r -> reader_invariant r.
Proof.
  induction 1 as [env path r Hmake | env r Hr IH | r Hr IH | r Hr IH
                  | env r Hr IH]; unfold reader_invariant in *.
  - pose proof (make_closed env path r Hmake) as (Hc & Ht & Hk).
    unfold ProjectReaderImpl.make in Hmake.
    destruct (empty path); [discriminate |]. injection Hmake as <-.
    cbn. repeat split; try discriminate. constructor.
  - destruct IH as (Hclosed & Hopen & Hids).
    destruct (ProjectReaderImpl.isOpen_ r) eqn:Ho.
    + unfold ProjectReaderImpl.open. rewrite Ho. cbn [snd]. rewrite Ho.
      repeat split; try discriminate; auto.
    + destruct (Hclosed eq_refl) as (Ht & Hk).
      unfold ProjectReaderImpl.open, try_catch, bind. rewrite Ho.
      destruct (fs_exists env _) as [[|] | ?]; cbn [negb snd];
        try (cbn; rewrite ?Ho; repeat split; auto; discriminate).
      destruct (fs_is_regular_file env _) as [[|] | ?]; cbn [negb snd];
        try (cbn; rewrite ?Ho; repeat split; auto; discriminate).
      destruct (ifstream_good env _); cbn [negb snd];
        try (cbn; rewrite ?Ho; repeat split; auto; discriminate).
      cbn. repeat split; try discriminate. apply sample_track_has_id.
  - destruct IH as (_ & _ & Hids). cbn.
    repeat split; try discriminate. exact Hids.
  - destruct IH as (Hclosed & Hopen & Hids).
    destruct (readNextTrack_keeps r) as (Ho & Ht & Hsame).
    rewrite Ho, Ht. split; [| split; assumption].
    intro Hc. rewrite (Hsame Hc). apply Hclosed. exact Hc.
  - destruct IH as (Hclosed & Hopen & Hids).
    destruct (readNextClip_keeps env r) as (Ho & Ht & Hsame).
    rewrite Ho, Ht. split; [| split; assumption].
    intro Hc. rewrite (Hsame Hc). apply Hclosed. exact Hc.
Qed.

(** so a closed reader that [open()] opens starts at its first track, with
    one track loaded *)
Lemma opened_reader_starts_at_zero (env : Env) (r0 r : ProjectReaderImpl.t) :
  reader_reachable r0 ->
  ProjectReaderImpl.isOpen_ r0 = false ->
  ProjectReaderImpl.open env r0 = (true, r) ->
  ProjectReaderImpl.isOpen r = true /\
  ProjectReaderImpl.currentTrackIndex_ r = 0 /\
  ProjectReaderImpl.tracks_ r = [ProjectReaderImpl.sample_track env] /\
  Forall (fun track => TrackInfo.id track <> "")
         (ProjectReaderImpl.tracks_ r).
Proof.
  intros Hreach Hclosed Hopen.
  destruct (reachable_invariant r0 Hreach) as (Hzero & _ & _).
  destruct (Hzero Hclosed) as (Ht & _).
  destruct (open_closed_loads env r0 r Hclosed Hopen)
    as (Ho & Htracks & _ & Hcur & _).
  repeat split; try assumption.
  - congruence.
  - rewrite Htracks. apply sample_track_has_id.
Qed.

Lemma reader_made_is_constructed :
  ProjectReaderImpl.make env_song "song.dawproject" = Some reader_made.
Proof. reflexivity. Qed.

(* ------------------------------------------------------------------ *)
(** ** Lexical facts about paths *)

Section PathLemmas.

Lemma contains_slash_cons (c : ascii) (r : string) :
  contains "/" (String c r) = Ascii.eqb c slash || contains "/" r.
Proof.
  cbn [contains starts_with]. rewrite andb_true_r.
  rewrite (Ascii.eqb_sym "/"%char c). reflexivity.
Qed.

Lemma split_slash_free (x : string) :
  contains "/" x = false -> split x = [x].
Proof.
  induction x as [| c r IH]; [reflexivity |].
  rewrite contains_slash_cons. intro H. apply orb_false_iff in H as [Hc Hr].
  cbn [split]. rewrite Hc, (IH Hr). reflexivity.
Qed.

Lemma split_append_slash (x y : string) :
  contains "/" x = false -> split (x ++ String slash y) = x :: split y.
Proof.
  induction x as [| c r IH]; intro H.
  - cbn. reflexivity.
  - rewrite contains_slash_cons in H. apply orb_false_iff in H as [Hc Hr].
    cbn [append split]. rewrite Hc, (IH Hr). reflexivity.
Qed.

(** joining slash-free names and splitting again gives the names back *)
Lemma split_join (xs : list string) :
  xs <> [] ->
  Forall (fun x => contains "/" x = false) xs ->
  split (join "/" xs) = xs.
Proof.
  induction xs as [| x rest IH]; intros Hne Hall; [contradiction |].
  inversion Hall as [| ? ? Hx Hrest]; subst.
  destruct rest as [| y rest'].
  - cbn [join]. apply split_slash_free. exact Hx.
  - change (join "/" (x :: y :: rest'))
      with (x ++ String slash (join "/" (y :: rest'))).
    rewrite (split_append_slash _ _ Hx), IH; [reflexivity | discriminate | exact Hrest].
Qed.

(** a string without separator has none to strip *)
Lemma strip_slash_free (x : string) :
  contains "/" x = false -> strip_trailing_slashes x = x.
Proof.
  induction x as [| c r IH]; [reflexivity |].
  rewrite contains_slash_cons. intro H. apply orb_false_iff in H as [Hc Hr].
  cbn [strip_trailing_slashes]. rewrite (IH Hr), Hc.
  destruct r; reflexivity.
Qed.

Lemma strip_append (x y : string) :
  y <> "" -> strip_trailing_slashes y = y ->
  strip_trailing_slashes (x ++ y) = x ++ y.
Proof.
  intros Hy Hs. induction x as [| c r IH]; [exact Hs |].
  cbn [append strip_trailing_slashes]. rewrite IH.
  destruct (r ++ y) eqn:E; [| reflexivity].
  destruct r; cbn in E; [contradiction | discriminate].
Qed.

Lemma strip_join (xs : list string) :
  xs <> [] ->
  Forall (fun x => x <> "" /\ contains "/" x = false) xs ->
  join "/" xs <> "" /\ strip_trailing_slashes (join "/" xs) = join "/" xs.
Proof.
  induction xs as [| x rest IH]; intros Hne Hall; [contradiction |].
  inversion Hall as [| ? ? [Hx1 Hx2] Hrest]; subst.
  destruct rest as [| y rest'].
  - cbn [join]. split; [exact Hx1 | apply strip_slash_free; exact Hx2].
  - change (join "/" (x :: y :: rest'))
      with (x ++ String slash (join "/" (y :: rest'))).
    destruct IH as [IH1 IH2]; [discriminate | exact Hrest |].
    split.
    + destruct x; [contradiction | discriminate].
    + apply strip_append; [discriminate |].
      cbn [strip_trailing_slashes]. rewrite IH2.
      destruct (join "/" (y :: rest')); [contradiction | reflexivity].
Qed.


Lemma no_dotdot_append_slash (x y : string) :
  contains ".." x = false -> contains ".." y = false ->
  contains ".." (x ++ String slash y) = false.
Proof.
  intros Hx Hy. induction x as [| c r IH].
  - cbn [append contains starts_with].
    change (Ascii.eqb "." slash) with false. exact Hy.
  - cbn [contains] in Hx. apply orb_false_iff in Hx as [Hhead Hr].
    cbn [append contains]. rewrite (IH Hr), orb_false_r.
    destruct r as [| b r']; cbn [append starts_with] in *.
    + change (Ascii.eqb "." "/") with false. cbn [andb].
      apply andb_false_r.
    + exact Hhead.
Qed.

Lemma no_dotdot_join (xs : list string) :
  Forall (fun x => contains ".." x = false) xs ->
  contains ".." (join "/" xs) = false.
Proof.
  induction xs as [| x rest IH]; intro Hall; [reflexivity |].
  inversion Hall as [| ? ? Hx Hrest]; subst.
  destruct rest as [| y rest'].
  - exact Hx.
  - change (join "/" (x :: y :: rest'))
      with (x ++ String slash (join "/" (y :: rest'))).
    apply no_dotdot_append_slash; [exact Hx | apply IH; exact Hrest].
Qed.

Lemma plain_name_facts (d : string) :
  plain_name d = true ->
  d <> "" /\ contains "/" d = false /\ contains ".." d = false /\
  String.eqb d "" = false /\ String.eqb d "." = false /\
  String.eqb d ".." = false.
Proof.
  unfold plain_name. rewrite !andb_true_iff, !negb_true_iff.
  intros [[[He Hs] Hd] Hdd].
  repeat split; try assumption.
  - apply empty_false_iff. exact He.
  - destruct d; [discriminate | reflexivity].
  - destruct (String.eqb_spec d "..") as [-> | _];
      [discriminate | reflexivity].
Qed.

(** plain names go through normalisation untouched *)
Lemma normal_elements_plain (names rest seen : list string) :
  Forall (fun d => plain_name d = true) names ->
  normal_elements seen (names ++ rest)
  = normal_elements (rev names ++ seen) rest.
Proof.
  intro Hall. revert seen.
  induction Hall as [| d names Hd _ IH]; intro seen; [reflexivity |].
  destruct (plain_name_facts d Hd) as (_ & _ & _ & H0 & H1 & H2).
  cbn [app normal_elements rev]. rewrite H0, H1, H2. cbn [orb].
  rewrite IH, <- app_assoc. reflexivity.
Qed.

Lemma plain_names_slash_free (ds : list string) :
  Forall (fun d => plain_name d = true) ds ->
  Forall (fun d => d <> "" /\ contains "/" d = false) ds /\
  Forall (fun d => contains "/" d = false) ds /\
  Forall (fun d => contains ".." d = false) ds.
Proof.
  intro Hall. repeat split; eapply Forall_impl; try exact Hall;
    intros d Hd; destruct (plain_name_facts d Hd) as (? & ? & ? & _);
    auto.
Qed.

(** the parent of [/d_1/.../d_n/f] is [/d_1/.../d_n] *)
Lemma parent_path_absolute (ds : list string) (f : string) :
  Forall (fun d => plain_name d = true) ds ->
  contains "/" f = false ->
  parent_path ("/" ++ join "/" (ds ++ [f])) = "/" ++ join "/" ds.
Proof.
  intros Hds Hf.
  destruct (plain_names_slash_free ds Hds) as (Hne & Hsf & _).
  unfold parent_path.
  change ("/" ++ join "/" (ds ++ [f]))
    with (String slash (join "/" (ds ++ [f]))).
  cbn [split has_root_directory]. rewrite Ascii.eqb_refl.
  rewrite split_join;
    [| destruct ds; discriminate
     | apply Forall_app; split; [exact Hsf | repeat constructor; exact Hf]].
  destruct ds as [| d ds'].
  - reflexivity.
  - cbn [app]. cbv iota.
    change (removelast ("" :: d :: ds' ++ [f]))
      with ("" :: removelast ((d :: ds') ++ [f])).
    rewrite removelast_last.
    change (join "/" ("" :: d :: ds'))
      with (String slash (join "/" (d :: ds'))).
    destruct (strip_join (d :: ds')) as [Hj1 Hj2];
      [discriminate | exact Hne |].
    cbn [strip_trailing_slashes]. rewrite Hj2.
    destruct (join "/" (d :: ds')) eqn:E; [contradiction | reflexivity].
Qed.


(** whatever the current directory, made of plain names, the canonical
    form of [../evil.xml] has a parent without ".." *)
Lemma evil_parent_has_no_dotdot (cwd : list string)
    (present : string -> bool) :
  Forall (fun d => plain_name d = true) cwd ->
  contains ".."
    (parent_path (posix_weakly_canonical cwd present "../evil.xml")) = false.
Proof.
  intro Hall. unfold posix_weakly_canonical.
  change (empty "../evil.xml") with false.
  change (leading_element_exists present "../evil.xml") with true.
  change (has_root_directory "../evil.xml") with false. cbv iota.
  change (split "../evil.xml") with [".."; "evil.xml"].
  rewrite (normal_elements_plain cwd _ [] Hall), app_nil_r.
  cbn [normal_elements String.eqb Ascii.eqb Bool.eqb orb andb rev].
  assert (Hds : Forall (fun d => plain_name d = true) (rev (tl (rev cwd)))).
  { apply Forall_rev. apply Forall_rev in Hall.
    destruct (rev cwd); [constructor |]. inversion Hall; assumption. }
  rewrite (parent_path_absolute _ "evil.xml" Hds eq_refl).
  change ("/" ++ join "/" (rev (tl (rev cwd))))
    with (String slash (join "/" (rev (tl (rev cwd))))).
  cbn [contains starts_with]. change (Ascii.eqb "." "/") with false.
  cbn [andb orb].
  apply no_dotdot_join.
  apply (plain_names_slash_free _ Hds).
Qed.
End PathLemmas.

(* ------------------------------------------------------------------ *)
(** ** saveProject and the parent-directory check *)

(** with a project that passes the title and tempo checks, a path whose
    canonical form has no ".." in its parent gets past the traversal
    check, whatever the path itself looks like *)
Lemma saveProject_traversal_check_sees_canonical
    (env env' : Env) (project : ProjectInfo.t)
    (tracks : list TrackInfo.t) (clips : list ClipInfo.t)
    (path canonical : string) :
  fs_weakly_canonical env path = Ret canonical ->
  contains ".." (parent_path canonical) = false ->
  errorMessage (fst (DataAccessEngineImpl.saveProject
                       env env' project tracks clips path))
  <> "Invalid path: contains parent directory references".
Proof.
  intros Hcanon Hclean.
  unfold DataAccessEngineImpl.saveProject, try_catch, bind.
  destruct (empty path); [cbn; discriminate |].
  destruct (empty (ProjectInfo.title project)); [cbn; discriminate |].
  destruct (_ || _); [cbn; discriminate |].
  rewrite Hcanon, Hclean.
  destruct (negb _ && negb _); [cbn; discriminate |].
  destruct (fs_create_directories env _); [cbn; discriminate |].
  destruct (negb (ofstream_trunc_is_open env path)); [cbn; discriminate |].
  destruct (ofstream_fail env path _); [cbn; discriminate |].
  destruct (fs_exists env' path) as [[|] | ?]; cbn; try discriminate.
  destruct (fs_file_size env' path); cbn; discriminate.
Qed.

(** so in any current directory made of plain names the traversal check
    lets [../evil.xml] through *)
Lemma saveProject_evil_never_flagged
    (cwd : list string) (present : string -> bool) (env env' : Env)
    (project : ProjectInfo.t)
    (tracks : list TrackInfo.t) (clips : list ClipInfo.t) :
  Forall (fun d => plain_name d = true) cwd ->
  fs_weakly_canonical env "../evil.xml"
    = Ret (posix_weakly_canonical cwd present "../evil.xml") ->
  errorMessage (fst (DataAccessEngineImpl.saveProject
                       env env' project tracks clips "../evil.xml"))
  <> "Invalid path: contains parent directory references".
Proof.
  intros Hcwd Hcanon.
  eapply saveProject_traversal_check_sees_canonical.
  - exact Hcanon.
  - apply evil_parent_has_no_dotdot. exact Hcwd.
Qed.

(** C1: in the directory [/home/user/project], [saveProject] given the path
    [../evil.xml] and a valid project resolves it to [/home/user/evil.xml],
    finds no ".." in the parent [/home/user], and goes on to write the file
    and report success. *)
Theorem saveProject_evil_is_written :
  fs_weakly_canonical env_empty_disk "../evil.xml"
    = Ret "/home/user/evil.xml" /\
  parent_path "/home/user/evil.xml" = "/home/user" /\
  contains ".." "/home/user" = false /\
  DataAccessEngineImpl.saveProject env_empty_disk env_after_evil
    project_T [] [] "../evil.xml"
  = (makeSuccess
       (size (DataAccessEngineImpl.saveProject_content
                env_empty_disk project_T)),
     Some (DataAccessEngineImpl.saveProject_content
             env_empty_disk project_T)).
Proof. repeat split. Qed.

(* ------------------------------------------------------------------ *)
(** ** Free text in the serialized output *)

Lemma count_char_append (c : ascii) (a b : string) :
  count_char c (a ++ b) = count_char c a + count_char c b.
Proof.
  induction a as [| d a IH]; cbn.
  - reflexivity.
  - rewrite IH. lia.
Qed.

(** the track fragment holds its four delimiting quotes and, as they are,
    every quote of the id and of the name *)
Lemma trackXml_quotes (track : TrackInfo.t) :
  count_char dquote (ProjectWriterImpl.trackXml track)
  = 4 + count_char dquote (TrackInfo.id track)
      + count_char dquote (TrackInfo.name track).
Proof.
  unfold ProjectWriterImpl.trackXml.
  rewrite !count_char_append. cbn. lia.
Qed.

(** the project fragment and the saved document copy the title as it is *)
Lemma title_copied_verbatim (env : Env) (project : ProjectInfo.t) :
  ProjectWriterImpl.projectXml env project
  = "  <ProjectInfo title=" ++ q ++ ProjectInfo.title project
    ++ (q ++ " tempo=" ++ q
        ++ to_string_double env (ProjectInfo.tempo project) ++ q
        ++ " artist=" ++ q ++ ProjectInfo.artist project ++ q ++ "/>" ++ nl)
  /\
  DataAccessEngineImpl.saveProject_content env project
  = xml_declaration ++ "<Project title=" ++ q ++ ProjectInfo.title project
    ++ (q ++ " tempo=" ++ q
        ++ ostream_double env (ProjectInfo.tempo project) ++ q ++ ">" ++ nl
        ++ "  <!-- Generated by DAWProject Data Access Engine -->" ++ nl
        ++ "</Project>" ++ nl).
Proof.
  unfold ProjectWriterImpl.projectXml,
    DataAccessEngineImpl.saveProject_content.
  split; reflexivity.
Qed.

(** On a disk where it does not exist yet, a bare file name is not
    written: [weakly_canonical] leaves it relative, its parent path is
    empty, and creating the directories of the empty path fails. With a
    leading dot the canonical path is absolute and the file is written. *)
Lemma saveProject_bare_name_not_written :
  posix_weakly_canonical project_dir (fun _ => false) "out.xml" = "out.xml" /\
  posix_weakly_canonical project_dir (fun _ => false) "./out.xml"
  = "/home/user/project/out.xml" /\
  DataAccessEngineImpl.saveProject env_empty_disk env_after_out
    project_quote [] [] "out.xml"
  = (makeError "Failed to create directories: Invalid argument", None).
Proof. repeat split. Qed.

(** C2: free text holding a double quote reaches the output as it is. A
    track named a-quote-b is written as a fragment with five quotes whose
    name attribute closes after the a; the same title is copied raw by
    [writeProjectInfo] and by [saveProject], and the same clip id by
    [writeClip]. No entity such as [&quot;] is produced. *)
Theorem free_text_is_not_escaped :
  (ProjectWriterImpl.writeTrack writer_opened (track_of "t1" text_with_quote)
   = (makeSuccess 30%N,
      ProjectWriterImpl.mk "out.dawproject" true
        (xml_declaration ++ "<Project>" ++ nl
         ++ "  <Track id=" ++ q ++ "t1" ++ q
         ++ " name=" ++ q ++ "a" ++ q ++ "b" ++ q ++ "/>" ++ nl))) /\
  count_char dquote
    (ProjectWriterImpl.trackXml (track_of "t1" text_with_quote)) = 5 /\
  (fst (ProjectWriterImpl.writeProjectInfo env_empty_disk writer_opened
          project_quote)
   = makeSuccess (size (ProjectWriterImpl.projectXml env_empty_disk
                          project_quote)) /\
   ProjectWriterImpl.projectXml env_empty_disk project_quote
   = "  <ProjectInfo title=" ++ q ++ "a" ++ q ++ "b" ++ q
     ++ " tempo=" ++ q ++ "120.000000" ++ q
     ++ " artist=" ++ q ++ q ++ "/>" ++ nl) /\
  (fst (ProjectWriterImpl.writeClip env_empty_disk writer_opened
          (clip_of text_with_quote))
   = makeSuccess (size (ProjectWriterImpl.clipXml env_empty_disk
                          (clip_of text_with_quote))) /\
   ProjectWriterImpl.clipXml env_empty_disk (clip_of text_with_quote)
   = "  <Clip id=" ++ q ++ "a" ++ q ++ "b" ++ q
     ++ " start=" ++ q ++ "0.000000" ++ q ++ "/>" ++ nl) /\
  (DataAccessEngineImpl.saveProject env_empty_disk env_after_out
     project_quote [] [] "./out.xml"
   = (makeSuccess (size (DataAccessEngineImpl.saveProject_content
                           env_empty_disk project_quote)),
      Some (xml_declaration
            ++ "<Project title=" ++ q ++ "a" ++ q ++ "b" ++ q
            ++ " tempo=" ++ q ++ "120" ++ q ++ ">" ++ nl
            ++ "  <!-- Generated by DAWProject Data Access Engine -->" ++ nl
            ++ "</Project>" ++ nl))) /\
  contains "&quot;"
    (ProjectWriterImpl.trackXml (track_of "t1" text_with_quote)
     ++ ProjectWriterImpl.projectXml env_empty_disk project_quote
     ++ ProjectWriterImpl.clipXml env_empty_disk (clip_of text_with_quote)
     ++ DataAccessEngineImpl.saveProject_content env_empty_disk project_quote)
  = false.
Proof. repeat split. Qed.

(* ================================================================== *)
(** * Further properties of the data-access code *)

(* ------------------------------------------------------------------ *)
(** ** More IEEE comparisons against 0.0 *)

(** [0.0 <= t] excludes [t < 0.0] *)
Lemma leb_zero_not_ltb (t : float) :
  (0 <=? t)%float = true -> (t <? 0)%float = false.
Proof.
  rewrite ltb_spec, leb_spec, Prim2SF_zero.
  destruct (Prim2SF t) as [s | s | | s m e]; try destruct s; cbn;
    congruence.
Qed.

(** a number that is not [<= 0.0] is above 0.0 *)
Lemma not_leb_zero_ltb (t : float) :
  PrimFloat.is_nan t = false -> (t <=? 0)%float = false ->
  (0 <? t)%float = true.
Proof.
  unfold PrimFloat.is_nan.
  rewrite eqb_spec, ltb_spec, leb_spec, Prim2SF_zero.
  destruct (Prim2SF t) as [s | s | | s m e]; try destruct s; cbn;
    congruence.
Qed.

(* ------------------------------------------------------------------ *)
(** ** getValidationErrors against isValid *)

(** the error list is empty exactly when none of the three tests fires *)
Lemma getValidationErrors_nil_iff (p : ProjectInfo.t) :
  ProjectInfo.getValidationErrors p = [] <->
  ProjectInfo.title p <> "" /\
  (ProjectInfo.tempo p <=? 0)%float = false /\
  ProjectInfo.timeSignature p <> "".
Proof.
  unfold ProjectInfo.getValidationErrors, push_back.
  rewrite <- !empty_false_iff.
  destruct (empty (ProjectInfo.title p)),
    (ProjectInfo.tempo p <=? 0)%float,
    (empty (ProjectInfo.timeSignature p)); cbn;
    split; try discriminate; try (intros (? & ? & ?); discriminate);
    repeat split.
Qed.

(** X1: a project for which [getValidationErrors()] is empty and whose tempo
    is a number (not NaN) is valid; it has at most three errors in any
    case. *)
Theorem no_errors_and_number_tempo_valid :
  forall p : ProjectInfo.t,
    (ProjectInfo.getValidationErrors p = [] ->
     PrimFloat.is_nan (ProjectInfo.tempo p) = false ->
     ProjectInfo.isValid p = true) /\
    List.length (ProjectInfo.getValidationErrors p) <= 3.
Proof.
  intro p. split.
  - intros Herr Hnum.
    apply getValidationErrors_nil_iff in Herr as (Ht & Hle & _).
    apply isValid_intro; [exact Ht |].
    apply not_leb_zero_ltb; assumption.
  - unfold ProjectInfo.getValidationErrors, push_back.
    destruct (empty _), (_ <=? _)%float, (empty _); cbn; lia.
Qed.

(** X1, on the project titled T at 120 BPM in 4/4 *)
Lemma no_errors_and_number_tempo_valid_witness :
  ProjectInfo.isValid project_T = true /\
  List.length (ProjectInfo.getValidationErrors project_T) <= 3.
Proof.
  destruct (no_errors_and_number_tempo_valid project_T) as [Hv Hlen].
  split; [| exact Hlen].
  apply Hv; reflexivity.
Defined.

(** with a NaN tempo the error list is empty although the project is
    invalid: the two disagree in this direction as well *)
Lemma nan_tempo_no_errors_but_invalid :
  let p := ProjectInfo.mk "T" "" "" "" nan "4/4" "" 0%Z 0%Z in
  ProjectInfo.getValidationErrors p = [] /\ ProjectInfo.isValid p = false.
Proof. split; reflexivity. Qed.

(* ------------------------------------------------------------------ *)
(** ** ValidationResult as an accumulator *)

Lemma app_nil_iff {A} (l1 l2 : list A) :
  (l1 ++ l2)%list = [] <-> l1 = [] /\ l2 = [].
Proof.
  split.
  - apply app_eq_nil.
  - intros [-> ->]. reflexivity.
Qed.

(** X2: a result whose flag tells whether its error list is empty keeps
    that property through [addError], [addWarning] and [merge]; [addError]
    always leaves it invalid and [addWarning] never changes the flag or the
    errors. *)
Theorem ValidationResult_stays_coherent :
  forall (a b : ValidationResult.t) (message : string),
    coherent a -> coherent b ->
    coherent (ValidationResult.addError a message) /\
    ValidationResult.isValid (ValidationResult.addError a message) = false /\
    coherent (ValidationResult.addWarning a message) /\
    ValidationResult.isValid (ValidationResult.addWarning a message)
      = ValidationResult.isValid a /\
    ValidationResult.errors (ValidationResult.addWarning a message)
      = ValidationResult.errors a /\
    coherent (ValidationResult.merge a b).
Proof.
  intros a b message Ha Hb. unfold coherent in *.
  repeat split; cbn; try (intro H; try discriminate).
  - unfold push_back in H. apply app_eq_nil in H as [_ H]. discriminate.
  - apply Ha. exact H.
  - apply Ha. exact H.
  - destruct (ValidationResult.isValid b); cbn in H; [| discriminate].
    apply app_nil_iff. split; [apply Ha; exact H | apply Hb; reflexivity].
  - apply app_nil_iff in H as [H1 H2].
    apply Ha in H1. apply Hb in H2. rewrite H1, H2. reflexivity.
Qed.

(** X2, on a result with one error and a result with one warning *)
Lemma ValidationResult_stays_coherent_witness :
  coherent (ValidationResult.merge result_one_warning result_one_error) /\
  ValidationResult.isValid
    (ValidationResult.merge result_one_warning result_one_error) = false /\
  ValidationResult.isValid
    (ValidationResult.addWarning result_one_warning "again") = true.
Proof.
  assert (Hw : coherent result_one_warning)
    by (split; reflexivity).
  assert (He : coherent result_one_error)
    by (split; discriminate).
  destruct (ValidationResult_stays_coherent
              result_one_warning result_one_error "again" Hw He)
    as (_ & _ & _ & Hflag & _ & Hmerge).
  split; [exact Hmerge | split; [reflexivity | exact Hflag]].
Defined.

(** X3: [merge] is associative, a valid result without errors and warnings
    is neutral on the right, and merging never changes the context of the
    receiving result. *)
Theorem ValidationResult_merge_monoid :
  forall (a b c : ValidationResult.t) (ctx : string),
    ValidationResult.merge (ValidationResult.merge a b) c
      = ValidationResult.merge a (ValidationResult.merge b c) /\
    ValidationResult.merge a (ValidationResult.mk true [] [] ctx) = a /\
    ValidationResult.context (ValidationResult.merge a b)
      = ValidationResult.context a.
Proof.
  intros a b c ctx. unfold ValidationResult.merge. cbn.
  rewrite !app_assoc, !app_nil_r.
  repeat split.
  - destruct (ValidationResult.isValid a), (ValidationResult.isValid b),
      (ValidationResult.isValid c); reflexivity.
  - destruct a; reflexivity.
Qed.

(* ------------------------------------------------------------------ *)
(** ** The engine's load operations *)

(** case analysis on every test and every fallible call of a method body *)
Ltac case_calls :=
  repeat
    (cbv beta iota zeta;
     match goal with
     | |- context [match ?o with Ret _ => _ | Throw _ => _ end] =>
         lazymatch o with
         | (if _ then _ else _) => fail
         | (match _ with Ret _ => _ | Throw _ => _ end) => fail
         | (match _ with Some _ => _ | None => _ end) => fail
         | _ => destruct o eqn:?
         end
     | |- context [if ?b then _ else _] => destruct b eqn:?
     | |- context [match ?o with Some _ => _ | None => _ end] =>
         lazymatch o with
         | (if _ then _ else _) => fail
         | _ => destruct o eqn:?
         end
     end);
  cbv beta iota zeta.

(** [loadProjectInfo] succeeds exactly when every one of its checks passes *)
Lemma loadProjectInfo_success_iff (env : Env) (path : string) :
  success (DataAccessEngineImpl.loadProjectInfo env path) = true <->
  path <> "" /\
  fs_exists env path = Ret true /\
  fs_is_regular_file env path = Ret true /\
  exists fileSize, fs_file_size env path = Ret fileSize /\
                   (fileSize <= 100 * 1024 * 1024)%N.
Proof.
  unfold DataAccessEngineImpl.loadProjectInfo, try_catch, bind.
  destruct (empty path) eqn:Ep.
  { apply empty_true_iff in Ep. cbn.
    split; [discriminate | intros [H _]; congruence]. }
  apply empty_false_iff in Ep.
  destruct (fs_exists env path) as [[|] | what]; cbn [negb];
    try (cbn; split; [discriminate | intros (_ & H & _); congruence]).
  destruct (fs_is_regular_file env path) as [[|] | what]; cbn [negb];
    try (cbn; split; [discriminate | intros (_ & _ & H & _); congruence]).
  destruct (fs_file_size env path) as [fileSize | what].
  2:{ cbn. split; [discriminate |].
      intros (_ & _ & _ & n & H & _). discriminate. }
  destruct (N.ltb_spec DataAccessEngineImpl.MAX_FILE_SIZE fileSize)
    as [Hbig | Hfit]; cbn.
  - split; [discriminate |].
    intros (_ & _ & _ & n & H & Hn). injection H as <-.
    unfold DataAccessEngineImpl.MAX_FILE_SIZE in Hbig. lia.
  - split; [intros _ | reflexivity].
    repeat split; try assumption. exists fileSize. split; [reflexivity |].
    exact Hfit.
Qed.

(** X4: when [loadProjectInfo] succeeds the path is non-empty and names an
    existing regular file of at most 100 MiB, and the project returned is
    valid, has no validation error, and is the placeholder "Default
    Project" at 120 BPM. *)
Theorem loadProjectInfo_payload_valid :
  forall (env : Env) (path : string),
    success (DataAccessEngineImpl.loadProjectInfo env path) = true ->
    let info := value (DataAccessEngineImpl.loadProjectInfo env path) in
    (path <> "" /\
     fs_exists env path = Ret true /\
     fs_is_regular_file env path = Ret true /\
     exists fileSize, fs_file_size env path = Ret fileSize /\
                      (fileSize <= 100 * 1024 * 1024)%N) /\
    ProjectInfo.isValid info = true /\
    ProjectInfo.getValidationErrors info = [] /\
    ProjectInfo.title info = "Default Project" /\
    ProjectInfo.tempo info = 120%float.
Proof.
  intros env path Hok info.
  pose proof (proj1 (loadProjectInfo_success_iff env path) Hok) as Hcond.
  split; [exact Hcond |].
  destruct Hcond as (Hp & He & Hr & n & Hs & Hn).
  subst info. unfold DataAccessEngineImpl.loadProjectInfo, try_catch, bind.
  apply empty_false_iff in Hp. rewrite Hp, He, Hr, Hs. cbn [negb].
  assert (Hfit : (DataAccessEngineImpl.MAX_FILE_SIZE <? n)%N = false)
    by (apply N.ltb_ge; exact Hn).
  rewrite Hfit. cbn. repeat split.
Qed.

(** X4, on [song.dawproject] *)
Lemma loadProjectInfo_payload_valid_witness :
  ProjectInfo.isValid
    (value (DataAccessEngineImpl.loadProjectInfo env_song "song.dawproject"))
    = true /\
  ProjectInfo.title
    (value (DataAccessEngineImpl.loadProjectInfo env_song "song.dawproject"))
    = "Default Project".
Proof.
  destruct (loadProjectInfo_payload_valid env_song "song.dawproject" eq_refl)
    as (_ & Hvalid & _ & Htitle & _).
  split; [exact Hvalid | exact Htitle].
Defined.

(** X5: [loadTracks] succeeds exactly when the path is non-empty and names
    an existing regular file that a stream can read; no file size is
    tested, and the track list returned is always empty. *)
Theorem loadTracks_success_iff :
  forall (env : Env) (path : string),
    (success (DataAccessEngineImpl.loadTracks env path) = true <->
     path <> "" /\
     fs_exists env path = Ret true /\
     fs_is_regular_file env path = Ret true /\
     ifstream_good env path = true) /\
    value (DataAccessEngineImpl.loadTracks env path) = [].
Proof.
  intros env path.
  unfold DataAccessEngineImpl.loadTracks, try_catch, bind.
  destruct (empty path) eqn:Ep.
  { apply empty_true_iff in Ep. cbn. split; [| reflexivity].
    split; [discriminate | intros [H _]; congruence]. }
  apply empty_false_iff in Ep.
  destruct (fs_exists env path) as [[|] | what]; cbn [negb];
    try (cbn; split; [| reflexivity]; split;
         [discriminate | intros (_ & H & _); congruence]).
  destruct (fs_is_regular_file env path) as [[|] | what]; cbn [negb];
    try (cbn; split; [| reflexivity]; split;
         [discriminate | intros (_ & _ & H & _); congruence]).
  destruct (ifstream_good env path); cbn; (split; [| reflexivity]).
  - split; [intros _; repeat split; assumption | reflexivity].
  - split; [discriminate | intros (_ & _ & _ & H); discriminate].
Qed.

(* ------------------------------------------------------------------ *)
(** ** The Result every operation returns *)

(** closes a goal [well_formed r] once [r] is a [makeSuccess] or a
    [makeError] of a message that starts with a literal *)
Ltac well_formed_done :=
  unfold well_formed; cbn;
  repeat split; solve [reflexivity | discriminate].

(** X6: whatever the environment, the object and the arguments, the Result
    of every engine, reader and writer operation ([loadProjectInfo],
    [loadTracks], [loadClips], [saveProject], [readProjectInfo],
    [readNextTrack], [readNextClip], [writeProjectInfo], [writeTrack],
    [writeClip], [finalize]) is either a success with an empty message and
    code 0, or a failure with a non-empty message, the value-initialised
    payload and code -1. *)
Theorem results_well_formed :
  forall (env env' : Env) (path trackId : string) (project : ProjectInfo.t)
         (tracks : list TrackInfo.t) (clips : list ClipInfo.t)
         (r : ProjectReaderImpl.t) (w : ProjectWriterImpl.t)
         (call : ProjectWriterImpl.write_call),
    (well_formed (DataAccessEngineImpl.loadProjectInfo env path) /\
     well_formed (DataAccessEngineImpl.loadTracks env path) /\
     well_formed (DataAccessEngineImpl.loadClips env path trackId) /\
     well_formed (fst (DataAccessEngineImpl.saveProject
                         env env' project tracks clips path))) /\
    (well_formed (ProjectReaderImpl.readProjectInfo env r) /\
     well_formed (fst (ProjectReaderImpl.readNextTrack r)) /\
     well_formed (fst (ProjectReaderImpl.readNextClip env r))) /\
    (well_formed (fst (ProjectWriterImpl.write env w call)) /\
     well_formed (fst (fst (ProjectWriterImpl.finalize env env' w)))).
Proof.
  intros env env' path trackId project tracks clips r w call.
  split; [| split].
  - unfold DataAccessEngineImpl.loadProjectInfo,
      DataAccessEngineImpl.loadTracks, DataAccessEngineImpl.loadClips,
      DataAccessEngineImpl.saveProject, try_catch, bind.
    split; [| split; [| split]]; case_calls; well_formed_done.
  - unfold ProjectReaderImpl.readProjectInfo,
      ProjectReaderImpl.readNextTrack, ProjectReaderImpl.readNextClip.
    split; [| split]; case_calls; try well_formed_done;
      destruct (ProjectReaderImpl.tracks_ r) || destruct
        (ProjectReaderImpl.clips_ r); case_calls; well_formed_done.
  - split.
    + destruct call; unfold ProjectWriterImpl.write,
        ProjectWriterImpl.writeProjectInfo, ProjectWriterImpl.writeTrack,
        ProjectWriterImpl.writeClip; case_calls; well_formed_done.
    + unfold ProjectWriterImpl.finalize, try_catch, bind.
      case_calls; well_formed_done.
Qed.

(* ------------------------------------------------------------------ *)
(** ** validateFile and isValidProjectFile *)

(** [isValidProjectFile] answers true exactly when all its checks pass *)
Lemma isValidProjectFile_true_iff (env : Env) (more : EnvMore)
    (path : string) :
  DataAccessEngineImpl.isValidProjectFile env more path = true <->
  path <> "" /\
  fs_exists env path = Ret true /\
  fs_is_regular_file env path = Ret true /\
  fs_owner_read more path = Ret true /\
  (exists fileSize, fs_file_size env path = Ret fileSize /\
                    (0 < fileSize <= 100 * 1024 * 1024)%N) /\
  (extension path = ".dawproject" \/ extension path = ".xml").
Proof.
  unfold DataAccessEngineImpl.isValidProjectFile, try_catch, bind.
  destruct (empty path) eqn:Ep.
  { apply empty_true_iff in Ep.
    split; [discriminate | intros [H _]; congruence]. }
  apply empty_false_iff in Ep.
  destruct (fs_exists env path) as [[|] | what]; cbn [negb];
    try (split; [discriminate | intros (_ & H & _); congruence]).
  destruct (fs_is_regular_file env path) as [[|] | what]; cbn [negb];
    try (split; [discriminate | intros (_ & _ & H & _); congruence]).
  destruct (fs_owner_read more path) as [[|] | what]; cbn [negb];
    try (split; [discriminate | intros (_ & _ & _ & H & _); congruence]).
  destruct (fs_file_size env path) as [fileSize | what].
  2:{ split; [discriminate |].
      intros (_ & _ & _ & _ & (n & H & _) & _). discriminate. }
  destruct (N.eqb_spec fileSize 0) as [Hz | Hnz].
  { split; [discriminate |].
    intros (_ & _ & _ & _ & (n & H & Hn) & _). injection H as <-. lia. }
  destruct (N.ltb_spec DataAccessEngineImpl.MAX_FILE_SIZE fileSize)
    as [Hbig | Hfit].
  { split; [discriminate |].
    intros (_ & _ & _ & _ & (n & H & Hn) & _). injection H as <-.
    unfold DataAccessEngineImpl.MAX_FILE_SIZE in Hbig. lia. }
  cbv zeta.
  destruct (String.eqb_spec (extension path) ".dawproject") as [Hd | Hd];
    destruct (String.eqb_spec (extension path) ".xml") as [Hx | Hx];
    cbn [negb andb];
    try (split; [intros _ | reflexivity];
         repeat split; try assumption;
         [exists fileSize; split; [reflexivity |];
          unfold DataAccessEngineImpl.MAX_FILE_SIZE in Hfit; lia
         | auto]).
  split; [discriminate |].
  intros (_ & _ & _ & _ & _ & [H | H]); contradiction.
Qed.

(** X7: the result of [validateFile] is invalid exactly when it carries an
    error; it carries at most one error and at most two warnings, and its
    context is the path. *)
Theorem validateFile_result_shape :
  forall (env : Env) (more : EnvMore) (path : string),
    let result := DataAccessEngineImpl.validateFile env more path in
    coherent result /\
    List.length (ValidationResult.errors result) <= 1 /\
    List.length (ValidationResult.warnings result) <= 2 /\
    ValidationResult.context result = path.
Proof.
  intros env more path result. subst result.
  unfold DataAccessEngineImpl.validateFile, coherent.
  destruct (empty path); [cbn; repeat split; try lia; discriminate |].
  destruct (fs_exists env path) as [[|] | ?]; cbn [negb];
    try (cbn; repeat split; try lia; discriminate).
  destruct (fs_is_regular_file env path) as [[|] | ?]; cbn [negb];
    try (cbn; repeat split; try lia; discriminate).
  destruct (fs_file_size env path) as [fileSize | ?];
    [| cbn; repeat split; try lia; discriminate].
  cbv zeta.
  destruct (N.ltb_spec DataAccessEngineImpl.MAX_VALIDATION_SIZE fileSize)
    as [Hbig | Hfit];
    destruct (N.eqb_spec fileSize 0) as [Hz | Hnz];
    try (unfold DataAccessEngineImpl.MAX_VALIDATION_SIZE in Hbig; lia);
    destruct (fs_owner_read more path) as [[|] | ?]; cbn [negb];
    try (cbn; repeat split; try lia; discriminate);
    destruct (negb _ && negb _ && negb _);
    cbn; repeat split; try lia; discriminate.
Qed.

(** X8: a file [isValidProjectFile] accepts passes [validateFile] without
    error, with no warning at all when it is at most 50 MiB and with the
    single large-file warning otherwise. *)
Theorem isValidProjectFile_implies_validateFile :
  forall (env : Env) (more : EnvMore) (path : string),
    DataAccessEngineImpl.isValidProjectFile env more path = true ->
    let result := DataAccessEngineImpl.validateFile env more path in
    ValidationResult.isValid result = true /\
    ValidationResult.errors result = [] /\
    exists fileSize,
      fs_file_size env path = Ret fileSize /\
      ValidationResult.warnings result
      = if (50 * 1024 * 1024 <? fileSize)%N
        then ["File is very large (" ++ to_string_size_t fileSize
              ++ " bytes), validation may be slow"]
        else [].
Proof.
  intros env more path Hok result. subst result.
  apply isValidProjectFile_true_iff in Hok
    as (Hp & He & Hr & Hread & (n & Hs & Hn) & Hext).
  unfold DataAccessEngineImpl.validateFile.
  apply empty_false_iff in Hp. rewrite Hp, He, Hr, Hs, Hread. cbn [negb].
  cbv zeta.
  assert (Hnz : (n =? 0)%N = false) by (apply N.eqb_neq; lia).
  rewrite Hnz.
  assert (Hknown :
            negb (String.eqb (extension path) ".dawproject")
            && negb (String.eqb (extension path) ".xml")
            && negb (String.eqb (extension path) ".zip") = false).
  { destruct Hext as [-> | ->]; reflexivity. }
  rewrite Hknown.
  set (big := (DataAccessEngineImpl.MAX_VALIDATION_SIZE <? n)%N).
  assert (Hbig : (50 * 1024 * 1024 <? n)%N = big) by reflexivity.
  split; [| split].
  - destruct big; reflexivity.
  - destruct big; reflexivity.
  - exists n. split; [reflexivity |]. rewrite Hbig.
    destruct big; reflexivity.
Qed.

(** X8, on [song.dawproject], 1024 bytes long *)
Lemma isValidProjectFile_implies_validateFile_witness :
  ValidationResult.isValid
    (DataAccessEngineImpl.validateFile env_song more_posix "song.dawproject")
    = true /\
  ValidationResult.errors
    (DataAccessEngineImpl.validateFile env_song more_posix "song.dawproject")
    = [] /\
  ValidationResult.warnings
    (DataAccessEngineImpl.validateFile env_song more_posix "song.dawproject")
    = [].
Proof.
  destruct (isValidProjectFile_implies_validateFile
              env_song more_posix "song.dawproject" eq_refl)
    as (Hvalid & Herrors & n & Hsize & Hwarn).
  split; [exact Hvalid | split; [exact Herrors |]].
  injection Hsize as <-. exact Hwarn.
Defined.

(** X9: a file [isValidProjectFile] accepts is one [loadProjectInfo] loads,
    and its extension passes the check of [saveProject] and
    [createWriter]. *)
Theorem isValidProjectFile_implies_loadable :
  forall (env : Env) (more : EnvMore) (path : string),
    DataAccessEngineImpl.isValidProjectFile env more path = true ->
    success (DataAccessEngineImpl.loadProjectInfo env path) = true /\
    negb (String.eqb (extension path) ".dawproject")
    && negb (String.eqb (extension path) ".xml") = false.
Proof.
  intros env more path Hok.
  apply isValidProjectFile_true_iff in Hok
    as (Hp & He & Hr & _ & (n & Hs & Hn) & Hext).
  split.
  - apply loadProjectInfo_success_iff. repeat split; try assumption.
    exists n. split; [exact Hs | lia].
  - destruct Hext as [-> | ->]; reflexivity.
Qed.

(** X9, on [song.dawproject] *)
Lemma isValidProjectFile_implies_loadable_witness :
  success (DataAccessEngineImpl.loadProjectInfo env_song "song.dawproject")
    = true.
Proof.
  exact (proj1 (isValidProjectFile_implies_loadable
                  env_song more_posix "song.dawproject" eq_refl)).
Defined.

(* ------------------------------------------------------------------ *)
(** ** What saveProject writes, and when *)

(** X10: [saveProject] sends something to a file only after every check has
    passed: the path and the title are non-empty, the tempo is neither
    [<= 0] nor [> 999], the canonical parent directory holds no "..", the
    extension is [.dawproject] or [.xml], directories were created and the
    file opened; what it sends is then the four-line document, whatever the
    tracks and clips. *)
Theorem saveProject_writes_only_when_checked :
  forall (env env' : Env) (project : ProjectInfo.t)
         (tracks : list TrackInfo.t) (clips : list ClipInfo.t)
         (path content : string),
    snd (DataAccessEngineImpl.saveProject env env' project tracks clips path)
      = Some content ->
    path <> "" /\
    ProjectInfo.title project <> "" /\
    (ProjectInfo.tempo project <=? 0)%float = false /\
    (999 <? ProjectInfo.tempo project)%float = false /\
    (exists canonical,
        fs_weakly_canonical env path = Ret canonical /\
        contains ".." (parent_path canonical) = false /\
        fs_create_directories env (parent_path canonical) = None) /\
    (extension path = ".dawproject" \/ extension path = ".xml") /\
    ofstream_trunc_is_open env path = true /\
    content = DataAccessEngineImpl.saveProject_content env project.
Proof.
  intros env env' project tracks clips path content.
  unfold DataAccessEngineImpl.saveProject, try_catch, bind.
  destruct (empty path) eqn:Ep; [discriminate |].
  destruct (empty (ProjectInfo.title project)) eqn:Et; [discriminate |].
  destruct (ProjectInfo.tempo project <=? 0)%float eqn:Elow;
    [discriminate |].
  destruct (999 <? ProjectInfo.tempo project)%float eqn:Ehigh;
    [discriminate |].
  cbn [orb].
  destruct (fs_weakly_canonical env path) as [canonical | ?];
    [| discriminate].
  destruct (contains ".." (parent_path canonical)) eqn:Edots;
    [discriminate |].
  cbv zeta.
  destruct (String.eqb_spec (extension path) ".dawproject") as [Hd | Hd];
    destruct (String.eqb_spec (extension path) ".xml") as [Hx | Hx];
    cbn [negb andb]; try discriminate;
    (destruct (fs_create_directories env (parent_path canonical)) eqn:Edir;
     [discriminate |];
     destruct (ofstream_trunc_is_open env path) eqn:Eopen;
     [| discriminate]; cbn [negb];
     destruct (ofstream_fail env path _); cbn [snd];
     intro H; injection H as <-;
     apply empty_false_iff in Ep, Et;
     repeat split; auto;
     exists canonical; repeat split; assumption).
Qed.

(** X10, on the project whose title holds a quote, saved as [./out.xml] *)
Lemma saveProject_writes_only_when_checked_witness :
  "./out.xml" <> "" /\
  ProjectInfo.title project_quote <> "" /\
  (extension "./out.xml" = ".dawproject" \/ extension "./out.xml" = ".xml").
Proof.
  destruct (saveProject_writes_only_when_checked
              env_empty_disk env_after_out project_quote [] [] "./out.xml"
              (DataAccessEngineImpl.saveProject_content
                 env_empty_disk project_quote) eq_refl)
    as (Hp & Ht & _ & _ & _ & Hext & _).
  split; [exact Hp | split; [exact Ht | exact Hext]].
Defined.

(* ------------------------------------------------------------------ *)
(** ** The reader and writer factories *)

(** [createReader] returns null exactly for the empty path; the reader it
    returns otherwise is closed and has no track and no clip to offer *)
Lemma createReader_cases :
  forall (env : Env) (path : string),
    match createReader env path with
    | None => path = ""
    | Some r =>
        path <> "" /\
        ProjectReaderImpl.filePath_ r = path /\
        ProjectReaderImpl.isOpen r = false /\
        ProjectReaderImpl.getTrackCount r = 0 /\
        ProjectReaderImpl.getClipCount r = 0 /\
        ProjectReaderImpl.hasMoreTracks r = false /\
        ProjectReaderImpl.hasMoreClips r = false
    end.
Proof.
  intros env path. unfold createReader, ProjectReaderImpl.make.
  destruct (empty path) eqn:Ep.
  - apply empty_true_iff. exact Ep.
  - apply empty_false_iff in Ep. repeat split. exact Ep.
Qed.

(** [createWriter] returns a writer exactly when its three checks pass *)
Lemma createWriter_cases :
  forall (env : Env) (path : string) (w : ProjectWriterImpl.t),
    createWriter env path = Some w <->
    w = ProjectWriterImpl.mk path false "" /\
    path <> "" /\
    (extension path = ".dawproject" \/ extension path = ".xml") /\
    (parent_path path = "" \/
     fs_exists env (parent_path path) = Ret true \/
     (fs_exists env (parent_path path) = Ret false /\
      fs_create_directories env (parent_path path) = None)).
Proof.
  intros env path w.
  unfold createWriter, ProjectWriterImpl.make, try_catch, bind.
  destruct (empty path) eqn:Ep.
  { apply empty_true_iff in Ep.
    split; [discriminate | intros (_ & H & _); congruence]. }
  pose proof Ep as Hp. apply empty_false_iff in Hp.
  cbv zeta.
  destruct (String.eqb_spec (extension path) ".dawproject") as [Hd | Hd];
    destruct (String.eqb_spec (extension path) ".xml") as [Hx | Hx];
    cbn [negb andb];
    try (split; [discriminate | intros (_ & _ & [H | H] & _); contradiction]);
    (destruct (empty (parent_path path)) eqn:Epar;
     [ apply empty_true_iff in Epar;
       split; [intro H; injection H as <-; repeat split; auto
              | intros (-> & _); reflexivity]
     | apply empty_false_iff in Epar;
       destruct (fs_exists env (parent_path path)) as [[|] | ?];
       [ split; [intro H; injection H as <-; repeat split; auto
                | intros (-> & _); reflexivity]
       | destruct (fs_create_directories env (parent_path path));
         [ split; [discriminate |];
           intros (_ & _ & _ & [H | [H | [_ H]]]);
           [contradiction | discriminate | discriminate]
         | split; [intro H; injection H as <-; repeat split; auto
                  | intros (-> & _); reflexivity] ]
       | split; [discriminate |];
         intros (_ & _ & _ & [H | [H | [H _]]]);
         [contradiction | discriminate | discriminate] ] ]).
Qed.

(** X11: [createReader] returns null exactly for the empty path, without
    looking at the file system, and the reader it returns otherwise is
    closed, holds the path and has no track and no clip to offer;
    [createWriter] returns a writer exactly when the path is non-empty, its
    extension is [.dawproject] or [.xml], and the parent directory is
    empty, exists or could be created, and that writer is closed with an
    empty buffer. *)
Theorem factories_null_conditions :
  forall (env : Env) (path : string),
    match createReader env path with
    | None => path = ""
    | Some r =>
        path <> "" /\
        ProjectReaderImpl.filePath_ r = path /\
        ProjectReaderImpl.isOpen r = false /\
        ProjectReaderImpl.getTrackCount r = 0 /\
        ProjectReaderImpl.getClipCount r = 0 /\
        ProjectReaderImpl.hasMoreTracks r = false /\
        ProjectReaderImpl.hasMoreClips r = false
    end /\
    forall w : ProjectWriterImpl.t,
      createWriter env path = Some w <->
      w = ProjectWriterImpl.mk path false "" /\
      path <> "" /\
      (extension path = ".dawproject" \/ extension path = ".xml") /\
      (parent_path path = "" \/
       fs_exists env (parent_path path) = Ret true \/
       (fs_exists env (parent_path path) = Ret false /\
        fs_create_directories env (parent_path path) = None)).
Proof.
  intros env path. split.
  - apply createReader_cases.
  - intro w. apply createWriter_cases.
Qed.

(* ------------------------------------------------------------------ *)
(** ** More on the readers a program can hold *)

Lemma readNextTrack_cursor (r : ProjectReaderImpl.t) :
  ProjectReaderImpl.currentTrackIndex_ r
    <= List.length (ProjectReaderImpl.tracks_ r) ->
  ProjectReaderImpl.currentTrackIndex_
    (snd (ProjectReaderImpl.readNextTrack r))
    <= List.length (ProjectReaderImpl.tracks_ r) /\
  ProjectReaderImpl.clips_ (snd (ProjectReaderImpl.readNextTrack r))
    = ProjectReaderImpl.clips_ r /\
  ProjectReaderImpl.currentClipIndex_ (snd (ProjectReaderImpl.readNextTrack r))
    = ProjectReaderImpl.currentClipIndex_ r /\
  ProjectReaderImpl.projectInfo_ (snd (ProjectReaderImpl.readNextTrack r))
    = ProjectReaderImpl.projectInfo_ r.
Proof.
  intro Hle. unfold ProjectReaderImpl.readNextTrack.
  destruct (negb (ProjectReaderImpl.isOpen_ r)); [repeat split; exact Hle |].
  destruct (Nat.leb_spec (List.length (ProjectReaderImpl.tracks_ r))
              (ProjectReaderImpl.currentTrackIndex_ r)) as [Hend | Hin];
    [repeat split; exact Hle |].
  destruct (ProjectReaderImpl.tracks_ r) eqn:Ht;
    [repeat split; exact Hle |].
  cbv zeta. destruct (empty _); cbn; repeat split; exact Hin.
Qed.

(** with no clip loaded [readNextClip] fails and changes nothing *)
Lemma readNextClip_no_clips (env : Env) (r : ProjectReaderImpl.t) :
  ProjectReaderImpl.clips_ r = [] ->
  success (fst (ProjectReaderImpl.readNextClip env r)) = false /\
  snd (ProjectReaderImpl.readNextClip env r) = r.
Proof.
  intro Hc. unfold ProjectReaderImpl.readNextClip. rewrite Hc.
  destruct (negb (ProjectReaderImpl.isOpen_ r)); [split; reflexivity |].
  cbn. split; reflexivity.
Qed.

Lemma reachable_invariant_more (r : ProjectReaderImpl.t) :
  reader_reachable r -> reader_invariant_more r.
Proof.
  intro Hreach. pose proof Hreach as Hsaved. revert Hsaved.
  induction Hreach as [env path r Hmake | env r Hr IH | r Hr IH | r Hr IH
                       | env r Hr IH]; intros _;
    unfold reader_invariant_more in *.
  - unfold ProjectReaderImpl.make in Hmake.
    destruct (empty path); [discriminate |]. injection Hmake as <-.
    cbn. repeat split; try lia. all: discriminate.
  - specialize (IH Hr). destruct IH as (Hc & Hk & Hle & Hone & Hinfo).
    destruct (ProjectReaderImpl.isOpen_ r) eqn:Ho.
    + unfold ProjectReaderImpl.open. rewrite Ho. cbn [snd].
      repeat split; try assumption; apply (Hinfo eq_refl).
    + destruct (reachable_invariant r Hr) as (Hzero & _ & _).
      destruct (Hzero Ho) as (Ht0 & Hk0).
      unfold ProjectReaderImpl.open, try_catch, bind. rewrite Ho.
      destruct (fs_exists env _) as [[|] | ?]; cbn [negb snd];
        try (cbn; repeat split; try assumption; congruence).
      destruct (fs_is_regular_file env _) as [[|] | ?]; cbn [negb snd];
        try (cbn; repeat split; try assumption; congruence).
      destruct (ifstream_good env _); cbn [negb snd];
        try (cbn; repeat split; try assumption; congruence).
      cbn. rewrite Ht0. repeat split; try assumption; lia.
  - specialize (IH Hr). destruct IH as (Hc & _ & _ & Hone & _).
    cbn. repeat split; try assumption; try lia. all: discriminate.
  - specialize (IH Hr). destruct IH as (Hc & Hk & Hle & Hone & Hinfo).
    destruct (readNextTrack_keeps r) as (Ho & Ht & _).
    destruct (readNextTrack_cursor r Hle) as (Hle' & Hc' & Hk' & Hp').
    rewrite Ht, Hc', Hk', Hp', Ho.
    repeat split; try assumption; apply Hinfo; assumption.
  - specialize (IH Hr). destruct IH as (Hc & Hk & Hle & Hone & Hinfo).
    destruct (readNextClip_no_clips env r Hc) as (_ & Hsame).
    rewrite Hsame. repeat split; try assumption; apply Hinfo; assumption.
Qed.

(** X12: a reader a program can hold never has a clip: [getClipCount()] is
    0, [hasMoreClips()] is false, and [readNextClip()] fails and leaves the
    reader as it is, open or closed. *)
Theorem reader_never_yields_a_clip :
  forall (env : Env) (r : ProjectReaderImpl.t),
    reader_reachable r ->
    ProjectReaderImpl.getClipCount r = 0 /\
    ProjectReaderImpl.hasMoreClips r = false /\
    success (fst (ProjectReaderImpl.readNextClip env r)) = false /\
    snd (ProjectReaderImpl.readNextClip env r) = r.
Proof.
  intros env r Hreach.
  destruct (reachable_invariant_more r Hreach) as (Hc & Hk & _).
  destruct (readNextClip_no_clips env r Hc) as (Hfail & Hsame).
  unfold ProjectReaderImpl.getClipCount, ProjectReaderImpl.hasMoreClips.
  rewrite Hc, Hk. repeat split; assumption.
Qed.

Lemma reader_opened_reachable : reader_reachable reader_opened.
Proof.
  unfold reader_opened. apply reach_open.
  apply (reach_make env_song "song.dawproject"). reflexivity.
Defined.

(** X12, on the reader opened on [song.dawproject] *)
Lemma reader_never_yields_a_clip_witness :
  ProjectReaderImpl.getClipCount reader_opened = 0 /\
  success (fst (ProjectReaderImpl.readNextClip env_song reader_opened))
    = false.
Proof.
  destruct (reader_never_yields_a_clip env_song reader_opened
              reader_opened_reachable) as (Hcount & _ & Hfail & _).
  split; [exact Hcount | exact Hfail].
Defined.

(** X13: in a reader a program can hold the track cursor never passes the
    end of the track list, which holds at most one track; an open one
    answers [readProjectInfo()] with the valid sample project. *)
Theorem reader_cursor_in_bounds :
  forall (env : Env) (r : ProjectReaderImpl.t),
    reader_reachable r ->
    ProjectReaderImpl.currentTrackIndex_ r
      <= ProjectReaderImpl.getTrackCount r /\
    ProjectReaderImpl.getTrackCount r <= 1 /\
    (ProjectReaderImpl.isOpen r = true ->
     ProjectReaderImpl.readProjectInfo env r
       = makeSuccess (ProjectReaderImpl.projectInfo_ r) /\
     ProjectInfo.isValid (ProjectReaderImpl.projectInfo_ r) = true /\
     ProjectInfo.title (ProjectReaderImpl.projectInfo_ r)
       = "Sample Project").
Proof.
  intros env r Hreach.
  destruct (reachable_invariant_more r Hreach)
    as (_ & _ & Hle & Hone & Hinfo).
  unfold ProjectReaderImpl.getTrackCount.
  split; [exact Hle | split; [exact Hone |]].
  intro Ho. destruct (Hinfo Ho) as (Htitle & Htempo).
  unfold ProjectReaderImpl.readProjectInfo, ProjectInfo.isValid.
  unfold ProjectReaderImpl.isOpen in Ho.
  rewrite Ho, Htitle, Htempo. repeat split.
Qed.

(** X13, on the reader opened on [song.dawproject] *)
Lemma reader_cursor_in_bounds_witness :
  ProjectReaderImpl.currentTrackIndex_ reader_opened
    <= ProjectReaderImpl.getTrackCount reader_opened /\
  success (ProjectReaderImpl.readProjectInfo env_song reader_opened) = true.
Proof.
  destruct (reader_cursor_in_bounds env_song reader_opened
              reader_opened_reachable) as (Hle & _ & Hinfo).
  split; [exact Hle |].
  destruct (Hinfo eq_refl) as (Hread & _). rewrite Hread. reflexivity.
Defined.

(** X14: on an open reader whose loaded tracks all have an id,
    [readNextTrack()] succeeds exactly when [hasMoreTracks()] is true; when
    it fails the reader is unchanged, when it succeeds the cursor moved by
    one. *)
Theorem readNextTrack_succeeds_iff_hasMoreTracks :
  forall r : ProjectReaderImpl.t,
    ProjectReaderImpl.isOpen r = true ->
    Forall (fun track => TrackInfo.id track <> "")
           (ProjectReaderImpl.tracks_ r) ->
    success (fst (ProjectReaderImpl.readNextTrack r))
      = ProjectReaderImpl.hasMoreTracks r /\
    ProjectReaderImpl.currentTrackIndex_
      (snd (ProjectReaderImpl.readNextTrack r))
    = if ProjectReaderImpl.hasMoreTracks r
      then S (ProjectReaderImpl.currentTrackIndex_ r)
      else ProjectReaderImpl.currentTrackIndex_ r.
Proof.
  intros r Ho Hids. unfold ProjectReaderImpl.hasMoreTracks.
  destruct (Nat.ltb_spec (ProjectReaderImpl.currentTrackIndex_ r)
              (List.length (ProjectReaderImpl.tracks_ r))) as [Hin | Hend].
  - destruct (nth_error (ProjectReaderImpl.tracks_ r)
                (ProjectReaderImpl.currentTrackIndex_ r)) as [track |] eqn:Hn;
      [| apply nth_error_None in Hn; lia].
    assert (Hid : TrackInfo.id track <> "").
    { rewrite Forall_forall in Hids. apply Hids.
      eapply nth_error_In; eassumption. }
    pose proof (readNextTrack_in_range r _ track Ho Hn Hid) as Hread.
    rewrite at_track_current in Hread. rewrite Hread. split; reflexivity.
  - rewrite (readNextTrack_at_end r Ho Hend). split; reflexivity.
Qed.

(** X14, on the reader opened on [song.dawproject] *)
Lemma readNextTrack_succeeds_iff_hasMoreTracks_witness :
  success (fst (ProjectReaderImpl.readNextTrack reader_opened))
    = ProjectReaderImpl.hasMoreTracks reader_opened.
Proof.
  apply (readNextTrack_succeeds_iff_hasMoreTracks reader_opened eq_refl).
  repeat constructor. discriminate.
Defined.

(** X15: a track without id under the cursor of an open reader makes
    [readNextTrack()] fail with "Track has empty ID" and still moves the
    cursor past it, so the track is skipped, not retried. *)
Theorem readNextTrack_skips_track_without_id :
  forall (r : ProjectReaderImpl.t) (track : TrackInfo.t),
    ProjectReaderImpl.isOpen r = true ->
    nth_error (ProjectReaderImpl.tracks_ r)
              (ProjectReaderImpl.currentTrackIndex_ r) = Some track ->
    TrackInfo.id track = "" ->
    ProjectReaderImpl.readNextTrack r
    = (makeError "Track has empty ID",
       ProjectReaderImpl.at_track
         r (S (ProjectReaderImpl.currentTrackIndex_ r))).
Proof.
  intros r track Ho Hnth Hid.
  assert (Hlt : ProjectReaderImpl.currentTrackIndex_ r
                < List.length (ProjectReaderImpl.tracks_ r))
    by (apply nth_error_Some; congruence).
  unfold ProjectReaderImpl.readNextTrack, ProjectReaderImpl.at_track.
  unfold ProjectReaderImpl.isOpen in Ho. rewrite Ho. cbn [negb].
  assert (Hle : (List.length (ProjectReaderImpl.tracks_ r)
                 <=? ProjectReaderImpl.currentTrackIndex_ r)%nat = false)
    by (apply Nat.leb_gt; exact Hlt).
  rewrite Hle.
  destruct (ProjectReaderImpl.tracks_ r) as [| t0 ts] eqn:Hts;
    [cbn in Hlt; lia |].
  rewrite (nth_error_nth _ _ value_init Hnth), Hid. reflexivity.
Qed.

(** X15, on a reader whose first track has no id: the first call fails and
    the second returns the second track *)
Lemma readNextTrack_skips_track_without_id_witness :
  success (fst (ProjectReaderImpl.readNextTrack reader_blank_first)) = false
  /\
  fst (ProjectReaderImpl.readNextTrack
         (snd (ProjectReaderImpl.readNextTrack reader_blank_first)))
    = makeSuccess (track_of "t2" "second").
Proof.
  rewrite (readNextTrack_skips_track_without_id reader_blank_first
             (track_of "" "unnamed") eq_refl eq_refl eq_refl).
  split; reflexivity.
Defined.

(** X16: closing a reader and opening it again restarts the iteration: if
    that [open()] succeeds the cursor is at 0 however far it had advanced,
    and the next [readNextTrack()] returns the sample track. *)
Theorem close_then_open_restarts :
  forall (env : Env) (r r' : ProjectReaderImpl.t),
    ProjectReaderImpl.open env (ProjectReaderImpl.close r) = (true, r') ->
    ProjectReaderImpl.currentTrackIndex_ r' = 0 /\
    ProjectReaderImpl.hasMoreTracks r' = true /\
    fst (ProjectReaderImpl.readNextTrack r')
      = makeSuccess (ProjectReaderImpl.sample_track env).
Proof.
  intros env r r' Hopen.
  destruct (open_closed_loads env (ProjectReaderImpl.close r) r' eq_refl
              Hopen) as (Ho & Htracks & _ & Hcur & _).
  cbn in Hcur.
  assert (Hnth : nth_error (ProjectReaderImpl.tracks_ r') 0
                 = Some (ProjectReaderImpl.sample_track env))
    by (rewrite Htracks; reflexivity).
  assert (Hid : TrackInfo.id (ProjectReaderImpl.sample_track env) <> "")
    by discriminate.
  pose proof (readNextTrack_in_range r' 0 _ Ho Hnth Hid) as Hread.
  rewrite <- Hcur, at_track_current in Hread.
  split; [exact Hcur | split].
  - unfold ProjectReaderImpl.hasMoreTracks. rewrite Hcur, Htracks.
    reflexivity.
  - rewrite Hread. reflexivity.
Qed.

(** X16, on the opened reader after its one track was read *)
Lemma close_then_open_restarts_witness :
  ProjectReaderImpl.hasMoreTracks
    (snd (ProjectReaderImpl.readNextTrack reader_opened)) = false /\
  ProjectReaderImpl.hasMoreTracks
    (snd (ProjectReaderImpl.open env_song
            (ProjectReaderImpl.close
               (snd (ProjectReaderImpl.readNextTrack reader_opened)))))
    = true.
Proof.
  split; [reflexivity |].
  apply (close_then_open_restarts env_song
           (snd (ProjectReaderImpl.readNextTrack reader_opened))).
  reflexivity.
Defined.

(* ------------------------------------------------------------------ *)
(** ** What a write call does to the writer *)

(** the tail the three write methods share, once the record is accepted *)
Lemma append_step (w : ProjectWriterImpl.t) (fragment : string) :
  let step :=
    if (ProjectWriterImpl.BUFFER_LIMIT
        <? size (ProjectWriterImpl.xmlBuffer_ w) + size fragment)%N
    then (makeError "XML buffer size limit exceeded", w)
    else (makeSuccess (size fragment),
          ProjectWriterImpl.mk (ProjectWriterImpl.filePath_ w)
            (ProjectWriterImpl.isOpen_ w)
            (ProjectWriterImpl.xmlBuffer_ w ++ fragment)) in
  if success (fst step)
  then snd step
       = ProjectWriterImpl.mk (ProjectWriterImpl.filePath_ w)
           (ProjectWriterImpl.isOpen_ w)
           (ProjectWriterImpl.xmlBuffer_ w ++ fragment) /\
       value (fst step) = size fragment /\
       (size (ProjectWriterImpl.xmlBuffer_ w) + size fragment
        <= ProjectWriterImpl.BUFFER_LIMIT)%N
  else snd step = w /\ value (fst step) = 0%N.
Proof.
  cbv zeta.
  destruct (N.ltb_spec ProjectWriterImpl.BUFFER_LIMIT
              (size (ProjectWriterImpl.xmlBuffer_ w) + size fragment))
    as [Hover | Hfit]; cbn.
  - split; reflexivity.
  - repeat split. exact Hfit.
Qed.

(** every write call either fails and changes nothing, or appends its
    fragment and reports the fragment's size *)
Lemma write_cases (env : Env) (w : ProjectWriterImpl.t)
    (call : ProjectWriterImpl.write_call) :
  if success (fst (ProjectWriterImpl.write env w call))
  then ProjectWriterImpl.isOpen_ w = true /\
       snd (ProjectWriterImpl.write env w call)
       = ProjectWriterImpl.mk (ProjectWriterImpl.filePath_ w)
           (ProjectWriterImpl.isOpen_ w)
           (ProjectWriterImpl.xmlBuffer_ w
            ++ ProjectWriterImpl.fragment_of env call) /\
       value (fst (ProjectWriterImpl.write env w call))
       = size (ProjectWriterImpl.fragment_of env call) /\
       (size (ProjectWriterImpl.xmlBuffer_ w)
        + size (ProjectWriterImpl.fragment_of env call)
        <= ProjectWriterImpl.BUFFER_LIMIT)%N
  else snd (ProjectWriterImpl.write env w call) = w /\
       value (fst (ProjectWriterImpl.write env w call)) = 0%N.
Proof.
  destruct call as [project | track | clip];
    unfold ProjectWriterImpl.write, ProjectWriterImpl.fragment_of,
      ProjectWriterImpl.writeProjectInfo, ProjectWriterImpl.writeTrack,
      ProjectWriterImpl.writeClip;
    (destruct (ProjectWriterImpl.isOpen_ w) eqn:Ho; cbn [negb];
     [| cbn; split; reflexivity]).
  - destruct (empty _); [cbn; split; reflexivity |].
    destruct (_ || _); [cbn; split; reflexivity |].
    destruct (256 <? _)%N; [cbn; split; reflexivity |].
    cbv zeta.
    pose proof (append_step w (ProjectWriterImpl.projectXml env project))
      as H. cbv zeta in H. rewrite Ho in H.
    destruct (success _); [split; [reflexivity | exact H] | exact H].
  - destruct (empty _); [cbn; split; reflexivity |].
    destruct (empty _); [cbn; split; reflexivity |].
    cbv zeta.
    pose proof (append_step w (ProjectWriterImpl.trackXml track)) as H.
    cbv zeta in H. rewrite Ho in H.
    destruct (success _); [split; [reflexivity | exact H] | exact H].
  - destruct (empty _); [cbn; split; reflexivity |].
    destruct (_ <? _)%float; [cbn; split; reflexivity |].
    cbv zeta.
    pose proof (append_step w (ProjectWriterImpl.clipXml env clip)) as H.
    cbv zeta in H. rewrite Ho in H.
    destruct (success _); [split; [reflexivity | exact H] | exact H].
Qed.

(** X17: [writeProjectInfo], [writeTrack] and [writeClip] are all or
    nothing. A call that fails, for whatever reason, leaves the writer
    exactly as it was; a call that succeeds was made on an open writer,
    appends exactly its fragment, reports the fragment's length, and
    leaves the buffer within 10 MiB. *)
Theorem write_all_or_nothing :
  forall (env : Env) (w : ProjectWriterImpl.t)
         (call : ProjectWriterImpl.write_call),
    let result := fst (ProjectWriterImpl.write env w call) in
    let w' := snd (ProjectWriterImpl.write env w call) in
    (success result = false -> w' = w) /\
    (success result = true ->
     ProjectWriterImpl.isOpen w = true /\
     ProjectWriterImpl.filePath_ w' = ProjectWriterImpl.filePath_ w /\
     ProjectWriterImpl.isOpen w' = true /\
     ProjectWriterImpl.xmlBuffer_ w'
       = ProjectWriterImpl.xmlBuffer_ w
         ++ ProjectWriterImpl.fragment_of env call /\
     value result = size (ProjectWriterImpl.fragment_of env call) /\
     (size (ProjectWriterImpl.xmlBuffer_ w') <= 10 * 1024 * 1024)%N).
Proof.
  intros env w call result w'. subst result w'.
  pose proof (write_cases env w call) as H.
  destruct (success (fst (ProjectWriterImpl.write env w call))).
  - destruct H as (Ho & Hw & Hv & Hfit). split; [discriminate |].
    intros _. rewrite Hw. cbn. rewrite size_append.
    repeat split; assumption.
  - destruct H as (Hw & _). split; [intros _; exact Hw | discriminate].
Qed.

(** X17, on the freshly opened writer: a track without id is refused, a
    named one appended *)
Lemma write_all_or_nothing_witness :
  snd (ProjectWriterImpl.write env_empty_disk writer_opened
         (ProjectWriterImpl.WriteTrack (track_of "" "n"))) = writer_opened /\
  ProjectWriterImpl.xmlBuffer_
    (snd (ProjectWriterImpl.write env_empty_disk writer_opened
            (ProjectWriterImpl.WriteTrack (track_of "t" "n"))))
  = ProjectWriterImpl.xmlBuffer_ writer_opened
    ++ ProjectWriterImpl.trackXml (track_of "t" "n").
Proof.
  split.
  - apply (proj1 (write_all_or_nothing env_empty_disk writer_opened
                    (ProjectWriterImpl.WriteTrack (track_of "" "n")))).
    reflexivity.
  - apply (proj2 (write_all_or_nothing env_empty_disk writer_opened
                    (ProjectWriterImpl.WriteTrack (track_of "t" "n")))).
    reflexivity.
Defined.

(* ------------------------------------------------------------------ *)
(** ** Sequences of write calls *)

Lemma append_empty_right (s : string) : s ++ "" = s.
Proof. induction s as [| c s IH]; cbn; [| rewrite IH]; reflexivity. Qed.

Lemma append_assoc (a b c : string) : (a ++ b) ++ c = a ++ (b ++ c).
Proof. induction a as [| x a IH]; cbn; [| rewrite IH]; reflexivity. Qed.

Lemma writes_cons (env : Env) (w : ProjectWriterImpl.t)
    (call : ProjectWriterImpl.write_call)
    (rest : list ProjectWriterImpl.write_call) :
  ProjectWriterImpl.writes env w (call :: rest)
  = (fst (ProjectWriterImpl.write env w call)
       :: fst (ProjectWriterImpl.writes env
                 (snd (ProjectWriterImpl.write env w call)) rest),
     snd (ProjectWriterImpl.writes env
            (snd (ProjectWriterImpl.write env w call)) rest)).
Proof.
  cbn [ProjectWriterImpl.writes].
  destruct (ProjectWriterImpl.write env w call) as [res w1]. cbn [fst snd].
  destruct (ProjectWriterImpl.writes env w1 rest) as [ress w2].
  reflexivity.
Qed.

(** the bookkeeping of a sequence of write calls *)
Lemma writes_account_for_the_buffer_aux :
  forall (env : Env) (calls : list ProjectWriterImpl.write_call)
         (w : ProjectWriterImpl.t),
    let results := fst (ProjectWriterImpl.writes env w calls) in
    let w' := snd (ProjectWriterImpl.writes env w calls) in
    ProjectWriterImpl.xmlBuffer_ w'
      = ProjectWriterImpl.xmlBuffer_ w
        ++ fragments_written env calls results /\
    size (ProjectWriterImpl.xmlBuffer_ w')
      = (size (ProjectWriterImpl.xmlBuffer_ w) + bytes_reported results)%N /\
    List.length results = List.length calls /\
    ProjectWriterImpl.isOpen w' = ProjectWriterImpl.isOpen w /\
    ProjectWriterImpl.filePath_ w' = ProjectWriterImpl.filePath_ w.
Proof.
  intros env calls. induction calls as [| call rest IH]; intro w.
  - cbn. rewrite append_empty_right, N.add_0_r. repeat split.
  - cbv zeta. rewrite writes_cons. cbn [fst snd].
    pose proof (write_cases env w call) as Hcall.
    destruct (ProjectWriterImpl.write env w call) as [res w1].
    cbn [fst snd] in *.
    specialize (IH w1). cbv zeta in IH.
    destruct IH as (Hbuf & Hsize & Hlen & Hopen & Hpath).
    rewrite Hsize, Hbuf, Hopen, Hpath.
    cbn [fragments_written List.length]. rewrite Hlen.
    change (bytes_reported
              (res :: fst (ProjectWriterImpl.writes env w1 rest)))
      with (value res
            + bytes_reported (fst (ProjectWriterImpl.writes env w1 rest)))%N.
    destruct (success res).
    + destruct Hcall as (_ & Hw & Hv & _). rewrite Hv. subst w1.
      cbn [ProjectWriterImpl.xmlBuffer_ ProjectWriterImpl.isOpen
           ProjectWriterImpl.isOpen_ ProjectWriterImpl.filePath_].
      rewrite size_append, append_assoc. repeat split. lia.
    + destruct Hcall as (Hw & Hv). rewrite Hv. subst w1.
      repeat split.
Qed.

(** X18: after any sequence of write calls the buffer is the buffer before
    followed by the fragments of the calls that succeeded, in call order;
    the byte counts of all the results add up to the growth of the buffer
    (a failed call reports 0); there is one result per call, and the calls
    neither open nor close the writer nor change its path. *)
Theorem writes_account_for_the_buffer :
  forall (env : Env) (calls : list ProjectWriterImpl.write_call)
         (w : ProjectWriterImpl.t),
    let results := fst (ProjectWriterImpl.writes env w calls) in
    let w' := snd (ProjectWriterImpl.writes env w calls) in
    ProjectWriterImpl.xmlBuffer_ w'
      = ProjectWriterImpl.xmlBuffer_ w
        ++ fragments_written env calls results /\
    size (ProjectWriterImpl.xmlBuffer_ w')
      = (size (ProjectWriterImpl.xmlBuffer_ w) + bytes_reported results)%N /\
    List.length results = List.length calls /\
    ProjectWriterImpl.isOpen w' = ProjectWriterImpl.isOpen w /\
    ProjectWriterImpl.filePath_ w' = ProjectWriterImpl.filePath_ w.
Proof. exact writes_account_for_the_buffer_aux. Qed.

Lemma write_keeps_ceiling (env : Env) (w : ProjectWriterImpl.t)
    (call : ProjectWriterImpl.write_call) :
  (size (ProjectWriterImpl.xmlBuffer_ w)
   <= ProjectWriterImpl.BUFFER_LIMIT)%N ->
  (size (ProjectWriterImpl.xmlBuffer_
           (snd (ProjectWriterImpl.write env w call)))
   <= ProjectWriterImpl.BUFFER_LIMIT)%N.
Proof.
  intro Hinv. pose proof (write_cases env w call) as H.
  destruct (success (fst (ProjectWriterImpl.write env w call))).
  - destruct H as (_ & Hw & _ & Hfit). rewrite Hw. cbn.
    rewrite size_append. exact Hfit.
  - destruct H as (Hw & _). rewrite Hw. exact Hinv.
Qed.

Lemma writes_keep_ceiling (env : Env)
    (calls : list ProjectWriterImpl.write_call) :
  forall w,
    (size (ProjectWriterImpl.xmlBuffer_ w)
     <= ProjectWriterImpl.BUFFER_LIMIT)%N ->
    (size (ProjectWriterImpl.xmlBuffer_
             (snd (ProjectWriterImpl.writes env w calls)))
     <= ProjectWriterImpl.BUFFER_LIMIT)%N.
Proof.
  induction calls as [| call rest IH]; intros w Hinv.
  - exact Hinv.
  - rewrite writes_cons. cbn [snd]. apply IH.
    apply write_keeps_ceiling. exact Hinv.
Qed.

(** [open()] on a closed writer, when it succeeds, starts the buffer with
    the 49-byte header *)
Lemma open_closed_starts_document (env : Env) (w0 w : ProjectWriterImpl.t) :
  ProjectWriterImpl.isOpen_ w0 = false ->
  ProjectWriterImpl.open env w0 = (true, w) ->
  w = ProjectWriterImpl.mk (ProjectWriterImpl.filePath_ w0) true
        document_header.
Proof.
  intros Hc. unfold ProjectWriterImpl.open, try_catch, bind. rewrite Hc.
  case_calls; intro H; try discriminate; injection H as <-; reflexivity.
Qed.

(** X19: in a session that starts with a successful [open()] of a closed
    writer, the buffer starts as the 49-byte header and after any sequence
    of write calls it is still at most 10 MiB long. *)
Theorem session_buffer_within_ceiling :
  forall (env : Env) (w0 w : ProjectWriterImpl.t)
         (calls : list ProjectWriterImpl.write_call),
    ProjectWriterImpl.isOpen w0 = false ->
    ProjectWriterImpl.open env w0 = (true, w) ->
    ProjectWriterImpl.xmlBuffer_ w = document_header /\
    size (ProjectWriterImpl.xmlBuffer_ w) = 49%N /\
    (size (ProjectWriterImpl.xmlBuffer_
             (snd (ProjectWriterImpl.writes env w calls)))
     <= 10 * 1024 * 1024)%N.
Proof.
  intros env w0 w calls Hclosed Hopen.
  rewrite (open_closed_starts_document env w0 w Hclosed Hopen).
  cbn [ProjectWriterImpl.xmlBuffer_].
  split; [reflexivity | split; [reflexivity |]].
  apply writes_keep_ceiling. cbn [ProjectWriterImpl.xmlBuffer_].
  vm_compute. discriminate.
Qed.

(** X19, on the freshly opened writer and the track that nearly fills it *)
Lemma session_buffer_within_ceiling_witness :
  (size (ProjectWriterImpl.xmlBuffer_
           (snd (ProjectWriterImpl.writes env_empty_disk writer_opened
                   [ProjectWriterImpl.WriteTrack track_big;
                    ProjectWriterImpl.WriteTrack (track_of "t" "n")])))
   <= 10 * 1024 * 1024)%N.
Proof.
  apply (session_buffer_within_ceiling env_empty_disk
           (ProjectWriterImpl.mk "out.dawproject" false "") writer_opened
           [ProjectWriterImpl.WriteTrack track_big;
            ProjectWriterImpl.WriteTrack (track_of "t" "n")]);
    reflexivity.
Defined.

(** X20: on a closed writer every write call and [finalize()] fail with
    "Writer not open"; the writer stays as it is through any sequence of
    calls and nothing is sent to a file. *)
Theorem closed_writer_refuses :
  forall (env env' : Env) (w : ProjectWriterImpl.t)
         (call : ProjectWriterImpl.write_call)
         (calls : list ProjectWriterImpl.write_call),
    ProjectWriterImpl.isOpen w = false ->
    ProjectWriterImpl.write env w call = (makeError "Writer not open", w) /\
    ProjectWriterImpl.finalize env env' w
      = (makeError "Writer not open", w, None) /\
    snd (ProjectWriterImpl.writes env w calls) = w /\
    Forall (fun res => res = makeError "Writer not open")
           (fst (ProjectWriterImpl.writes env w calls)).
Proof.
  intros env env' w call calls Hc. unfold ProjectWriterImpl.isOpen in Hc.
  assert (Hone : forall c,
            ProjectWriterImpl.write env w c
            = (makeError "Writer not open", w)).
  { intros [p | t | c]; cbn;
      unfold ProjectWriterImpl.writeProjectInfo, ProjectWriterImpl.writeTrack,
        ProjectWriterImpl.writeClip; rewrite Hc; reflexivity. }
  split; [apply Hone | split].
  - unfold ProjectWriterImpl.finalize. rewrite Hc. reflexivity.
  - induction calls as [| c rest IH].
    + split; [reflexivity | constructor].
    + rewrite writes_cons, Hone. cbn [fst snd]. destruct IH as [IH1 IH2].
      split; [exact IH1 | constructor; [reflexivity | exact IH2]].
Qed.

(** X20, on the writer constructed for [out.dawproject] and never opened *)
Lemma closed_writer_refuses_witness :
  ProjectWriterImpl.write env_empty_disk
    (ProjectWriterImpl.mk "out.dawproject" false "")
    (ProjectWriterImpl.WriteTrack (track_of "t" "n"))
  = (makeError "Writer not open",
     ProjectWriterImpl.mk "out.dawproject" false "").
Proof.
  apply (closed_writer_refuses env_empty_disk env_empty_disk
           (ProjectWriterImpl.mk "out.dawproject" false "")
           (ProjectWriterImpl.WriteTrack (track_of "t" "n")) []).
  reflexivity.
Defined.

(* ------------------------------------------------------------------ *)
(** ** finalize *)

(** what [finalize()] does on an open writer, whichever way it ends *)
Lemma finalize_open (env env' : Env) (w : ProjectWriterImpl.t) :
  ProjectWriterImpl.isOpen_ w = true ->
  let w' := ProjectWriterImpl.mk (ProjectWriterImpl.filePath_ w) true
              (ProjectWriterImpl.xmlBuffer_ w ++ closing_tag) in
  snd (fst (ProjectWriterImpl.finalize env env' w)) = w' /\
  (snd (ProjectWriterImpl.finalize env env' w) = None \/
   snd (ProjectWriterImpl.finalize env env' w)
     = Some (ProjectWriterImpl.xmlBuffer_ w ++ closing_tag)) /\
  (success (fst (fst (ProjectWriterImpl.finalize env env' w))) = true ->
   fst (fst (ProjectWriterImpl.finalize env env' w))
     = makeSuccess (size (ProjectWriterImpl.xmlBuffer_ w) + 11)%N /\
   snd (ProjectWriterImpl.finalize env env' w)
     = Some (ProjectWriterImpl.xmlBuffer_ w ++ closing_tag) /\
   ofstream_trunc_is_open env (ProjectWriterImpl.filePath_ w) = true /\
   fs_exists env' (ProjectWriterImpl.filePath_ w) = Ret true).
Proof.
  intros Ho. cbv zeta. unfold ProjectWriterImpl.finalize, try_catch, bind.
  rewrite Ho. cbn [negb]. cbv zeta.
  cbn [ProjectWriterImpl.filePath_ ProjectWriterImpl.xmlBuffer_].
  fold closing_tag.
  destruct (ofstream_trunc_is_open env (ProjectWriterImpl.filePath_ w));
    cbn [negb];
    [| cbn; split; [reflexivity | split; [left; reflexivity | discriminate]]].
  destruct (ofstream_fail env _ _);
    [cbn; split; [reflexivity | split; [right; reflexivity | discriminate]]
    |].
  destruct (fs_exists env' (ProjectWriterImpl.filePath_ w)) as [[|] | ?];
    cbn [negb fst snd];
    try (cbn; split;
         [reflexivity | split; [right; reflexivity | discriminate]]).
  split; [reflexivity | split; [right; reflexivity |]].
  intros _. rewrite size_append.
  change (size closing_tag) with 11%N. repeat split.
Qed.

(** X21: [finalize()] on an open writer always appends the closing tag to
    the buffer and leaves the writer open, even when it fails and without
    regard to the 10 MiB ceiling; what it sends to the file, if anything,
    is that whole buffer; when it succeeds the result is the length of the
    buffer before plus 11. *)
Theorem finalize_appends_closing_tag :
  forall (env env' : Env) (w : ProjectWriterImpl.t),
    ProjectWriterImpl.isOpen w = true ->
    let result := fst (fst (ProjectWriterImpl.finalize env env' w)) in
    let w' := snd (fst (ProjectWriterImpl.finalize env env' w)) in
    let sent := snd (ProjectWriterImpl.finalize env env' w) in
    ProjectWriterImpl.xmlBuffer_ w'
      = ProjectWriterImpl.xmlBuffer_ w ++ closing_tag /\
    ProjectWriterImpl.isOpen w' = true /\
    ProjectWriterImpl.filePath_ w' = ProjectWriterImpl.filePath_ w /\
    (sent = None \/ sent = Some (ProjectWriterImpl.xmlBuffer_ w')) /\
    (success result = true ->
     value result = (size (ProjectWriterImpl.xmlBuffer_ w) + 11)%N /\
     value result = size (ProjectWriterImpl.xmlBuffer_ w') /\
     sent = Some (ProjectWriterImpl.xmlBuffer_ w')).
Proof.
  intros env env' w Ho result w' sent. subst result w' sent.
  destruct (finalize_open env env' w Ho) as (Hw & Hsent & Hok).
  rewrite Hw. cbn [ProjectWriterImpl.xmlBuffer_ ProjectWriterImpl.isOpen
                   ProjectWriterImpl.isOpen_ ProjectWriterImpl.filePath_].
  repeat split; try assumption.
  - destruct (Hok H) as (Hres & _). rewrite Hres. reflexivity.
  - destruct (Hok H) as (Hres & _). rewrite Hres, size_append. reflexivity.
  - destruct (Hok H) as (_ & Hs & _). exact Hs.
Qed.

(** X21, on the freshly opened writer *)
Lemma finalize_appends_closing_tag_witness :
  value (fst (fst (ProjectWriterImpl.finalize env_empty_disk
                     (posix_env project_dir
                        (fun p => String.eqb p "out.dawproject")
                        (fun _ => 60%N))
                     writer_opened))) = 60%N /\
  ProjectWriterImpl.isOpen
    (snd (fst (ProjectWriterImpl.finalize env_empty_disk
                 (posix_env project_dir
                    (fun p => String.eqb p "out.dawproject")
                    (fun _ => 60%N))
                 writer_opened))) = true.
Proof.
  destruct (finalize_appends_closing_tag env_empty_disk
              (posix_env project_dir
                 (fun p => String.eqb p "out.dawproject") (fun _ => 60%N))
              writer_opened eq_refl)
    as (_ & Hopen & _ & _ & Hok).
  split; [| exact Hopen].
  destruct (Hok eq_refl) as (Hvalue & _). exact Hvalue.
Defined.

(** X22: [finalize()] does not reset anything, so a second call on the same
    writer appends a second closing tag: whatever it sends is the original
    buffer followed by two closing tags, and its successful result is the
    original length plus 22. *)
Theorem finalize_twice_closes_twice :
  forall (env1 env1' env2 env2' : Env) (w : ProjectWriterImpl.t),
    ProjectWriterImpl.isOpen w = true ->
    let w1 := snd (fst (ProjectWriterImpl.finalize env1 env1' w)) in
    let second := ProjectWriterImpl.finalize env2 env2' w1 in
    ProjectWriterImpl.xmlBuffer_ (snd (fst second))
      = ProjectWriterImpl.xmlBuffer_ w ++ closing_tag ++ closing_tag /\
    (snd second = None \/
     snd second
       = Some (ProjectWriterImpl.xmlBuffer_ w ++ closing_tag ++ closing_tag))
    /\
    (success (fst (fst second)) = true ->
     value (fst (fst second))
       = (size (ProjectWriterImpl.xmlBuffer_ w) + 22)%N).
Proof.
  intros env1 env1' env2 env2' w Ho w1 second. subst second.
  destruct (finalize_open env1 env1' w Ho) as (Hw1 & _ & _).
  fold w1 in Hw1.
  assert (Ho1 : ProjectWriterImpl.isOpen_ w1 = true)
    by (rewrite Hw1; reflexivity).
  destruct (finalize_open env2 env2' w1 Ho1) as (Hw2 & Hsent & Hok).
  rewrite Hw2. rewrite Hw1 in Hsent, Hok |- *.
  cbn [ProjectWriterImpl.xmlBuffer_] in *.
  rewrite append_assoc in Hsent, Hok |- *.
  split; [reflexivity | split; [exact Hsent |]].
  intro H. destruct (Hok H) as (Hres & _). rewrite Hres.
  rewrite size_append. change (size closing_tag) with 11%N.
  unfold makeSuccess. cbn [value]. lia.
Qed.

(** X22, on the freshly opened writer finalized twice *)
Lemma finalize_twice_closes_twice_witness :
  ProjectWriterImpl.xmlBuffer_
    (snd (fst (ProjectWriterImpl.finalize env_empty_disk env_empty_disk
                 (snd (fst (ProjectWriterImpl.finalize
                              env_empty_disk env_empty_disk
                              writer_opened))))))
  = document_header ++ closing_tag ++ closing_tag.
Proof.
  apply (finalize_twice_closes_twice env_empty_disk env_empty_disk
           env_empty_disk env_empty_disk writer_opened).
  reflexivity.
Defined.

(** the writer a session holds after its write calls *)
Lemma session_start (env : Env) (w0 w : ProjectWriterImpl.t)
    (calls : list ProjectWriterImpl.write_call) :
  ProjectWriterImpl.isOpen_ w0 = false ->
  ProjectWriterImpl.open env w0 = (true, w) ->
  ProjectWriterImpl.xmlBuffer_ (snd (ProjectWriterImpl.writes env w calls))
    = document_header
      ++ fragments_written env calls
           (fst (ProjectWriterImpl.writes env w calls)) /\
  size (ProjectWriterImpl.xmlBuffer_
          (snd (ProjectWriterImpl.writes env w calls)))
    = (49 + bytes_reported (fst (ProjectWriterImpl.writes env w calls)))%N /\
  ProjectWriterImpl.isOpen_ (snd (ProjectWriterImpl.writes env w calls))
    = true.
Proof.
  intros Hclosed Hopen.
  destruct (writes_account_for_the_buffer_aux env calls w)
    as (Hbuf & Hsize & _ & Ho & _).
  rewrite (open_closed_starts_document env w0 w Hclosed Hopen)
    in Hbuf, Hsize, Ho |- *.
  cbn [ProjectWriterImpl.xmlBuffer_ ProjectWriterImpl.isOpen
       ProjectWriterImpl.isOpen_] in Hbuf, Hsize, Ho.
  change (size document_header) with 49%N in Hsize.
  repeat split; assumption.
Qed.

(** X23: over a whole session (a closed writer opened, any sequence of
    write calls, then a [finalize()] that succeeds) the total [finalize()]
    returns is 60 plus the byte counts the write calls returned, and the
    document sent to the file is the header, the fragments of the calls
    that succeeded in call order, and the closing tag. *)
Theorem session_total_is_sum_of_parts :
  forall (env env1 env1' : Env) (w0 w : ProjectWriterImpl.t)
         (calls : list ProjectWriterImpl.write_call),
    ProjectWriterImpl.isOpen w0 = false ->
    ProjectWriterImpl.open env w0 = (true, w) ->
    let results := fst (ProjectWriterImpl.writes env w calls) in
    let final :=
      ProjectWriterImpl.finalize env1 env1'
        (snd (ProjectWriterImpl.writes env w calls)) in
    success (fst (fst final)) = true ->
    value (fst (fst final)) = (60 + bytes_reported results)%N /\
    snd final
      = Some (document_header ++ fragments_written env calls results
              ++ closing_tag).
Proof.
  intros env env1 env1' w0 w calls Hclosed Hopen results final Hok.
  subst results final.
  destruct (session_start env w0 w calls Hclosed Hopen) as (Hbuf & Hsize & Ho).
  destruct (finalize_open env1 env1' _ Ho) as (_ & _ & Hfin).
  destruct (Hfin Hok) as (Hres & Hsent & _).
  rewrite Hres, Hsent, Hsize, Hbuf, append_assoc.
  unfold makeSuccess. cbn [value]. split; [lia | reflexivity].
Qed.

(** X23, on a session that writes one project record and one track *)
Lemma session_total_is_sum_of_parts_witness :
  value (fst (fst (ProjectWriterImpl.finalize env_empty_disk
                     (posix_env project_dir
                        (fun p => String.eqb p "out.dawproject")
                        (fun _ => 0%N))
                     (snd (ProjectWriterImpl.writes env_empty_disk
                             writer_opened
                             [ProjectWriterImpl.WriteProjectInfo project_T;
                              ProjectWriterImpl.WriteTrack
                                (track_of "t" "n")])))))
  = (60 + bytes_reported
            (fst (ProjectWriterImpl.writes env_empty_disk writer_opened
                    [ProjectWriterImpl.WriteProjectInfo project_T;
                     ProjectWriterImpl.WriteTrack (track_of "t" "n")])))%N.
Proof.
  apply (session_total_is_sum_of_parts env_empty_disk env_empty_disk
           (posix_env project_dir
              (fun p => String.eqb p "out.dawproject") (fun _ => 0%N))
           (ProjectWriterImpl.mk "out.dawproject" false "") writer_opened
           [ProjectWriterImpl.WriteProjectInfo project_T;
            ProjectWriterImpl.WriteTrack (track_of "t" "n")]);
    reflexivity.
Defined.

(* ------------------------------------------------------------------ *)
(** ** The writers a program can hold *)

(** X24: a writer created and driven through [open], [close], the write
    methods and [finalize] always has a non-empty path; while it is closed
    its buffer is empty, and while it is open its buffer starts with the
    document header. *)
Theorem writer_buffer_invariant :
  forall w : ProjectWriterImpl.t,
    writer_reachable w ->
    ProjectWriterImpl.filePath_ w <> "" /\
    (ProjectWriterImpl.isOpen w = false ->
     ProjectWriterImpl.xmlBuffer_ w = "") /\
    (ProjectWriterImpl.isOpen w = true ->
     exists rest,
       ProjectWriterImpl.xmlBuffer_ w = document_header ++ rest).
Proof.
  unfold ProjectWriterImpl.isOpen.
  induction 1 as [path w Hmake | env w Hw IH | w Hw IH | env w call Hw IH
                  | env env' w Hw IH].
  - unfold ProjectWriterImpl.make in Hmake.
    destruct (empty path) eqn:Ep; [discriminate |]. injection Hmake as <-.
    apply empty_false_iff in Ep. cbn. repeat split; auto. discriminate.
  - destruct IH as (Hpath & Hclosed & Hopen).
    destruct (ProjectWriterImpl.isOpen_ w) eqn:Ho.
    + unfold ProjectWriterImpl.open. rewrite Ho. cbn [snd]. rewrite Ho.
      repeat split; auto.
    + unfold ProjectWriterImpl.open, try_catch, bind. rewrite Ho.
      case_calls; cbn [snd]; rewrite ?Ho; cbn;
        repeat split; auto; try discriminate.
      all: intros _; exists ""; reflexivity.
  - destruct IH as (Hpath & _ & _). cbn. repeat split; auto. discriminate.
  - destruct IH as (Hpath & Hclosed & Hopen).
    pose proof (write_cases env w call) as Hcall.
    destruct (success (fst (ProjectWriterImpl.write env w call))).
    + destruct Hcall as (Ho & Hw' & _). rewrite Hw'. cbn. rewrite Ho.
      repeat split; auto; try discriminate.
      intros _. destruct (Hopen Ho) as [rest Hrest].
      exists (rest ++ ProjectWriterImpl.fragment_of env call).
      rewrite Hrest. apply append_assoc.
    + destruct Hcall as (Hw' & _). rewrite Hw'. repeat split; auto.
  - destruct IH as (Hpath & Hclosed & Hopen).
    destruct (ProjectWriterImpl.isOpen_ w) eqn:Ho.
    + destruct (finalize_open env env' w Ho) as (Hw' & _). rewrite Hw'. cbn.
      repeat split; auto; try discriminate.
      intros _. destruct (Hopen eq_refl) as [rest Hrest].
      exists (rest ++ closing_tag). rewrite Hrest. apply append_assoc.
    + unfold ProjectWriterImpl.finalize. rewrite Ho. cbn [negb fst snd].
      rewrite Ho. repeat split; auto.
Qed.

Lemma writer_opened_reachable : writer_reachable writer_opened.
Proof.
  unfold writer_opened. apply wreach_open.
  apply (wreach_make "out.dawproject"). reflexivity.
Defined.

(** X24, on the freshly opened writer *)
Lemma writer_buffer_invariant_witness :
  ProjectWriterImpl.filePath_ writer_opened <> "" /\
  exists rest,
    ProjectWriterImpl.xmlBuffer_ writer_opened = document_header ++ rest.
Proof.
  destruct (writer_buffer_invariant writer_opened writer_opened_reachable)
    as (Hpath & _ & Hopen).
  split; [exact Hpath | exact (Hopen eq_refl)].
Defined.

(* ------------------------------------------------------------------ *)
(** ** Records that pass isValid are written *)

(** X25: on an open writer, a track that passes [TrackInfo::isValid()] is
    accepted by [writeTrack] and a clip that passes [ClipInfo::isValid()]
    by [writeClip], whenever the fragment fits under the ceiling; the
    writer asks for less than [isValid()] does. *)
Theorem valid_records_are_written :
  forall (env : Env) (w : ProjectWriterImpl.t) (track : TrackInfo.t)
         (clip : ClipInfo.t),
    ProjectWriterImpl.isOpen w = true ->
    TrackInfo.isValid track = true ->
    ClipInfo.isValid clip = true ->
    ((size (ProjectWriterImpl.xmlBuffer_ w)
      + size (ProjectWriterImpl.trackXml track) <= 10 * 1024 * 1024)%N ->
     fst (ProjectWriterImpl.writeTrack w track)
       = makeSuccess (size (ProjectWriterImpl.trackXml track))) /\
    ((size (ProjectWriterImpl.xmlBuffer_ w)
      + size (ProjectWriterImpl.clipXml env clip) <= 10 * 1024 * 1024)%N ->
     fst (ProjectWriterImpl.writeClip env w clip)
       = makeSuccess (size (ProjectWriterImpl.clipXml env clip))).
Proof.
  intros env w track clip Ho Htrack Hclip.
  unfold ProjectWriterImpl.isOpen in Ho.
  unfold TrackInfo.isValid in Htrack. unfold ClipInfo.isValid in Hclip.
  repeat (rewrite andb_true_iff in Htrack
          || rewrite negb_true_iff in Htrack).
  repeat (rewrite andb_true_iff in Hclip || rewrite negb_true_iff in Hclip).
  destruct Htrack as (((Hid & Hname) & _) & _).
  destruct Hclip as ((((Hcid & _) & _) & _) & Hstart).
  split; intro Hfit.
  - rewrite (writeTrack_within_limit w track Ho);
      [reflexivity | apply empty_false_iff; exact Hid
       | apply empty_false_iff; exact Hname | exact Hfit].
  - unfold ProjectWriterImpl.writeClip. rewrite Ho, Hcid. cbn [negb].
    rewrite (leb_zero_not_ltb _ Hstart). cbv zeta.
    apply N.ltb_ge in Hfit.
    change (10 * 1024 * 1024)%N with ProjectWriterImpl.BUFFER_LIMIT in Hfit.
    rewrite Hfit. reflexivity.
Qed.

(** X25, on the freshly opened writer *)
Lemma valid_records_are_written_witness :
  fst (ProjectWriterImpl.writeTrack writer_opened (track_of "t" "n"))
    = makeSuccess 27%N /\
  success (fst (ProjectWriterImpl.writeClip env_empty_disk writer_opened
                  (ClipInfo.mk "c" "clip" "t" 0%float 1%float 1%float
                               0%float 0%float None None))) = true.
Proof.
  destruct (valid_records_are_written env_empty_disk writer_opened
              (track_of "t" "n")
              (ClipInfo.mk "c" "clip" "t" 0%float 1%float 1%float
                           0%float 0%float None None)
              eq_refl eq_refl eq_refl) as (Htrack & Hclip).
  split.
  - rewrite Htrack; [reflexivity | vm_compute; discriminate].
  - rewrite Hclip; [reflexivity | vm_compute; discriminate].
Defined.

(* ------------------------------------------------------------------ *)
(** ** XMLDocument: children by name *)

Section FindIf.
Context {A : Type} (pred : A -> bool).

Lemma positions_where_in (l : list A) :
  forall first i,
    In i (positions_where pred first l) <->
    first <= i /\
    exists x, nth_error l (i - first) = Some x /\ pred x = true.
Proof.
  induction l as [| a l IH]; intros first i; cbn [positions_where].
  - split; [contradiction |].
    intros (_ & x & H & _). destruct (i - first); discriminate.
  - assert (Hrest :
              In i (positions_where pred (S first) l) <->
              first < i /\
              exists x, nth_error (a :: l) (i - first) = Some x /\
                        pred x = true).
    { rewrite IH. split.
      - intros (Hle & x & Hn & Hp). split; [lia |]. exists x.
        split; [| exact Hp].
        replace (i - first) with (S (i - S first)) by lia. exact Hn.
      - intros (Hlt & x & Hn & Hp). split; [lia |]. exists x.
        split; [| exact Hp].
        replace (i - first) with (S (i - S first)) in Hn by lia. exact Hn. }
    destruct (pred a) eqn:Ha.
    + cbn [In]. rewrite Hrest. split.
      * intros [<- | (Hlt & Hx)].
        -- split; [lia |]. exists a. rewrite Nat.sub_diag.
           split; [reflexivity | exact Ha].
        -- split; [lia | exact Hx].
      * intros (Hle & Hx).
        destruct (Nat.eq_dec first i) as [-> | Hne];
          [left; reflexivity | right; split; [lia | exact Hx]].
    + rewrite Hrest. split.
      * intros (Hlt & Hx). split; [lia | exact Hx].
      * intros (Hle & x & Hn & Hp).
        destruct (Nat.eq_dec first i) as [-> | Hne].
        -- rewrite Nat.sub_diag in Hn. cbn in Hn. congruence.
        -- split; [lia |]. exists x. split; assumption.
Qed.

Lemma positions_where_sorted (l : list A) :
  forall first, StronglySorted lt (positions_where pred first l).
Proof.
  induction l as [| a l IH]; intro first; cbn [positions_where].
  - constructor.
  - destruct (pred a); [| apply IH].
    constructor; [apply IH |].
    apply Forall_forall. intros i Hi.
    apply positions_where_in in Hi. lia.
Qed.

Lemma positions_where_shift (l : list A) :
  forall first,
    positions_where pred (S first) l
    = map S (positions_where pred first l).
Proof.
  induction l as [| a l IH]; intro first; cbn [positions_where map].
  - reflexivity.
  - destruct (pred a); cbn [map]; rewrite IH; reflexivity.
Qed.

Lemma find_if_is_first_position (l : list A) :
  find_if pred l = hd_error (positions_where pred 0 l).
Proof.
  induction l as [| a l IH]; cbn [find_if positions_where].
  - reflexivity.
  - destruct (pred a); [reflexivity |].
    rewrite IH, positions_where_shift.
    destruct (positions_where pred 0 l); reflexivity.
Qed.

Lemma find_if_none_iff (l : list A) :
  find_if pred l = None <-> forall x, In x l -> pred x = false.
Proof.
  induction l as [| a l IH]; cbn [find_if].
  - split; [intros _ x [] | reflexivity].
  - destruct (pred a) eqn:Ha.
    + split; [discriminate |]. intro H.
      specialize (H a (or_introl eq_refl)). congruence.
    + destruct (find_if pred l) as [n |].
      * split; [discriminate |]. intro H.
        assert (Hnone : Some n = None)
          by (apply IH; intros x Hx; apply H; right; exact Hx).
        discriminate.
      * split; [| reflexivity]. intros _ x [<- | Hx];
          [exact Ha | apply IH; [reflexivity | exact Hx]].
Qed.

End FindIf.

(** X26: [findChildren(name)] points at exactly the children whose element
    name is [name], in document order and each once; [findChild(name)]
    points at the first of them, and is null exactly when no child has
    that name. *)
Theorem findChild_is_first_of_findChildren :
  forall (doc : XMLDocument) (name : string),
    findChild doc name = hd_error (findChildren doc name) /\
    (forall i,
        In i (findChildren doc name) <->
        exists child, nth_error (children doc) i = Some child /\
                      rootElementName child = name) /\
    StronglySorted lt (findChildren doc name) /\
    (findChild doc name = None <->
     forall child, In child (children doc) -> rootElementName child <> name).
Proof.
  intros doc name. unfold findChild, findChildren.
  split; [apply find_if_is_first_position | split; [| split]].
  - intro i. rewrite positions_where_in, Nat.sub_0_r. split.
    + intros (_ & x & Hn & Hp). exists x. split; [exact Hn |].
      apply String.eqb_eq. exact Hp.
    + intros (x & Hn & Hp). split; [lia |]. exists x.
      split; [exact Hn | apply String.eqb_eq; exact Hp].
  - apply positions_where_sorted.
  - rewrite find_if_none_iff. split; intros H child Hin.
    + apply String.eqb_neq. apply H. exact Hin.
    + apply String.eqb_neq. apply H. exact Hin.
Qed.

(* ------------------------------------------------------------------ *)
(** ** XMLDocument: attributes *)

Lemma map_find_assign_same (m : attribute_map) (key value : string) :
  map_find (map_assign m key value) key = Some value.
Proof.
  induction m as [| [k v] m IH]; cbn.
  - rewrite String.eqb_refl. reflexivity.
  - destruct (String.eqb k key) eqn:E; cbn; rewrite E; [reflexivity | exact IH].
Qed.

Lemma map_find_assign_other (m : attribute_map) (key value other : string) :
  other <> key ->
  map_find (map_assign m key value) other = map_find m other.
Proof.
  intro Hne. induction m as [| [k v] m IH]; cbn.
  - destruct (String.eqb_spec key other); [congruence | reflexivity].
  - destruct (String.eqb_spec k key) as [-> | Hk]; cbn.
    + destruct (String.eqb_spec key other); [congruence | reflexivity].
    + destruct (String.eqb k other); [reflexivity | exact IH].
Qed.

Lemma map_assign_keys (m : attribute_map) (key value : string) :
  map fst (map_assign m key value)
  = match map_find m key with
    | Some _ => map fst m
    | None => (map fst m ++ [key])%list
    end.
Proof.
  induction m as [| [k v] m IH]; cbn.
  - reflexivity.
  - destruct (String.eqb_spec k key) as [-> | Hk]; cbn.
    + reflexivity.
    + rewrite IH. destruct (map_find m key); reflexivity.
Qed.

Lemma map_find_none_not_key (m : attribute_map) (key : string) :
  map_find m key = None -> ~ In key (map fst m).
Proof.
  induction m as [| [k v] m IH]; cbn; [auto |].
  destruct (String.eqb_spec k key) as [-> | Hk]; [discriminate |].
  intros H [Heq | Hin]; [congruence | exact (IH H Hin)].
Qed.

(** X27: after [setAttribute(name, value)], [getAttribute(name, d)] returns
    [value] and the attribute of any other name reads as before; the map
    keeps one entry per key, growing by one entry only when [name] was
    absent; the element name, text and children are untouched. *)
Theorem setAttribute_then_getAttribute :
  forall (doc : XMLDocument) (name value other defaultValue : string),
    unique_keys (attributes doc) ->
    other <> name ->
    let doc' := setAttribute doc name value in
    getAttribute doc' name defaultValue = value /\
    getAttribute doc' other defaultValue
      = getAttribute doc other defaultValue /\
    unique_keys (attributes doc') /\
    List.length (attributes doc')
      = match map_find (attributes doc) name with
        | Some _ => List.length (attributes doc)
        | None => S (List.length (attributes doc))
        end /\
    rootElementName doc' = rootElementName doc /\
    textContent doc' = textContent doc /\
    children doc' = children doc.
Proof.
  intros doc name value other defaultValue Huniq Hne doc'. subst doc'.
  unfold getAttribute, setAttribute, unique_keys in *.
  cbn [attributes rootElementName textContent children].
  rewrite map_find_assign_same, (map_find_assign_other _ _ _ _ Hne).
  split; [reflexivity | split; [reflexivity | split; [| split]]].
  - rewrite map_assign_keys.
    destruct (map_find (attributes doc) name) eqn:Hf; [exact Huniq |].
    apply NoDup_app; [exact Huniq | repeat constructor; intros [] |].
    intros k Hin [<- | []].
    exact (map_find_none_not_key _ _ Hf Hin).
  - rewrite <- (length_map fst (map_assign _ _ _)), map_assign_keys.
    destruct (map_find (attributes doc) name);
      rewrite ?length_app, length_map; cbn; lia.
  - repeat split.
Qed.

(** X27, on the Project element: the version is overwritten, not added *)
Lemma setAttribute_then_getAttribute_witness :
  getAttribute (setAttribute doc_project "version" "2.0") "version" ""
    = "2.0" /\
  getAttribute (setAttribute doc_project "version" "2.0") "nonexistent"
               "default" = "default" /\
  List.length (attributes (setAttribute doc_project "version" "2.0")) = 1.
Proof.
  assert (Huniq : unique_keys (attributes doc_project))
    by (repeat constructor; intros []).
  assert (Hne : "nonexistent" <> "version") by discriminate.
  destruct (setAttribute_then_getAttribute doc_project "version" "2.0"
              "nonexistent" "default" Huniq Hne)
    as (_ & Hother & _ & Hlen & _).
  destruct (setAttribute_then_getAttribute doc_project "version" "2.0"
              "nonexistent" "" Huniq Hne)
    as (Hsame & _).
  split; [exact Hsame | split; [exact Hother | exact Hlen]].
Defined.

(* ------------------------------------------------------------------ *)
(** ** ZIPProcessorImpl *)

(** [isValidArchive] answers true exactly when all its checks pass *)
Lemma isValidArchive_true_iff (env : Env) (archivePath : string) :
  ZIPProcessorImpl.isValidArchive env archivePath = true <->
  archivePath <> "" /\
  fs_exists env archivePath = Ret true /\
  fs_is_regular_file env archivePath = Ret true /\
  exists fileSize, fs_file_size env archivePath = Ret fileSize /\
                   fileSize <> 0%N.
Proof.
  unfold ZIPProcessorImpl.isValidArchive, try_catch, bind.
  destruct (empty archivePath) eqn:Ep.
  { apply empty_true_iff in Ep.
    split; [discriminate | intros [H _]; congruence]. }
  apply empty_false_iff in Ep.
  destruct (fs_exists env archivePath) as [[|] | ?]; cbn [negb];
    try (split; [discriminate | intros (_ & H & _); congruence]).
  destruct (fs_is_regular_file env archivePath) as [[|] | ?]; cbn [negb];
    try (split; [discriminate | intros (_ & _ & H & _); congruence]).
  destruct (fs_file_size env archivePath) as [fileSize | ?].
  2:{ split; [discriminate | intros (_ & _ & _ & n & H & _); discriminate]. }
  destruct (N.eqb_spec fileSize 0) as [Hz | Hnz].
  - split; [discriminate |].
    intros (_ & _ & _ & n & H & Hn). injection H as <-. contradiction.
  - split; [intros _ | reflexivity]. repeat split; try assumption.
    exists fileSize. split; [reflexivity | exact Hnz].
Qed.

(** closes the goal of the next theorem when nothing is listed; [refute]
    shows that the checks of [isValidArchive] cannot all have passed *)
Ltac lists_nothing refute :=
  cbn; split; [split; [refute | discriminate] | split; [lia | constructor]].

(** X28: [listEntries] never lists more than one entry, and lists one
    exactly for the archives [isValidArchive] accepts; that entry is the
    file itself under the name [project.xml]: valid, not a directory, both
    sizes equal to the file size. *)
Theorem listEntries_one_entry_iff_valid_archive :
  forall (env : Env) (more : EnvMore) (archivePath : string),
    let entries :=
      value (ZIPProcessorImpl.listEntries env more archivePath) in
    (ZIPProcessorImpl.isValidArchive env archivePath = true <->
     List.length entries = 1) /\
    List.length entries <= 1 /\
    Forall (fun entry =>
              ArchiveEntry.name entry = "project.xml" /\
              ArchiveEntry.isValid entry = true /\
              ArchiveEntry.isDirectory entry = false /\
              ArchiveEntry.compressedSize entry
                = ArchiveEntry.uncompressedSize entry /\
              fs_file_size env archivePath
                = Ret (ArchiveEntry.uncompressedSize entry))
           entries.
Proof.
  intros env more archivePath entries. subst entries.
  rewrite isValidArchive_true_iff.
  unfold ZIPProcessorImpl.listEntries, try_catch, bind.
  destruct (empty archivePath) eqn:Ep.
  { apply empty_true_iff in Ep.
    lists_nothing ltac:(intros [H _]; congruence). }
  apply empty_false_iff in Ep.
  destruct (fs_exists env archivePath) as [[|] | ?]; cbn [negb];
    try (lists_nothing ltac:(intros (_ & H & _); congruence)).
  destruct (fs_is_regular_file env archivePath) as [[|] | ?]; cbn [negb];
    try (lists_nothing ltac:(intros (_ & _ & H & _); congruence)).
  destruct (fs_file_size env archivePath) as [fileSize | ?];
    [| lists_nothing ltac:(intros (_ & _ & _ & n & H & _); discriminate)].
  cbv zeta.
  destruct (N.eqb_spec fileSize 0) as [Hz | Hnz].
  - lists_nothing ltac:(intros (_ & _ & _ & n & H & Hn);
                        injection H as <-; contradiction).
  - cbn. split; [split; [reflexivity | intros _] | split; [lia |]].
    + repeat split; try assumption.
      exists fileSize. split; [reflexivity | exact Hnz].
    + repeat constructor.
Qed.

(** every file operation of [addEntry] is on the archive path or on its
    parent directory, never on a path taken from the entry name, and what
    is written is the data *)
Lemma addEntry_operations_on_archive :
  forall (env env' : Env) (more : EnvMore) (archivePath entryName : string)
         (data : list Byte.byte),
    Forall (fun operation =>
              match operation with
              | ZIPProcessorImpl.op_exists p => p = archivePath
                                               \/ p = parent_path archivePath
              | ZIPProcessorImpl.op_create_directories p =>
                  p = parent_path archivePath
              | ZIPProcessorImpl.op_open p => p = archivePath
              | ZIPProcessorImpl.op_write p sent =>
                  p = archivePath /\ sent = data
              | ZIPProcessorImpl.op_close p => p = archivePath
              end)
           (ZIPProcessorImpl.operations
              (ZIPProcessorImpl.addEntry env env' more archivePath entryName
                 data)).
Proof.
  intros env env' more archivePath entryName data.
  unfold ZIPProcessorImpl.addEntry.
  destruct (empty archivePath); [constructor |].
  destruct (empty entryName); [constructor |].
  destruct (contains "../" entryName
            || contains (".." ++ String backslash "") entryName);
    [constructor |].
  cbv zeta.
  destruct (empty (parent_path archivePath));
    [| destruct (fs_exists env (parent_path archivePath)) as [[|] | ?]];
    cbv beta iota;
    try destruct (fs_create_directories_throwing
                    more (parent_path archivePath)) as [[] | ?];
    cbn [ZIPProcessorImpl.operations];
    destruct (ofstream_is_open more archivePath); cbn [negb];
    destruct data as [| b data'];
    cbn [andb ZIPProcessorImpl.operations app];
    try destruct (ofstream_write_fail more archivePath (b :: data'));
    destruct (ofstream_close_fail more archivePath);
    cbn [ZIPProcessorImpl.operations app];
    repeat first [apply Forall_nil | apply Forall_cons];
    cbv beta iota; auto.
Qed.

(** X29: [addEntry] refuses an entry name holding "../" or "..\" before any
    file operation: the run then made no operation at all and wrote
    nothing, and with a non-empty archive path it is the same run in every
    environment. No operation is made exactly when one of the three
    argument checks fails. The stream receives something only when they
    all pass and the stream opened; what it receives is the data itself,
    and a successful result is the number of bytes of the data. *)
Theorem addEntry_checks_before_writing :
  forall (env env' : Env) (more : EnvMore) (archivePath entryName : string)
         (data : list Byte.byte),
    let run :=
      ZIPProcessorImpl.addEntry env env' more archivePath entryName data in
    (contains "../" entryName
     || contains (".." ++ String backslash "") entryName = true ->
     success (ZIPProcessorImpl.returned run) = false /\
     ZIPProcessorImpl.written run = None /\
     ZIPProcessorImpl.operations run = [] /\
     (archivePath <> "" ->
      run = ZIPProcessorImpl.mkAdded
              (makeError ("Invalid entry name (path traversal detected): "
                          ++ entryName)) None [])) /\
    (ZIPProcessorImpl.operations run = [] <->
     archivePath = "" \/ entryName = "" \/
     contains "../" entryName
     || contains (".." ++ String backslash "") entryName = true) /\
    (forall sent,
        ZIPProcessorImpl.written run = Some sent ->
        sent = data /\ archivePath <> "" /\ entryName <> "" /\
        contains "../" entryName = false /\
        contains (".." ++ String backslash "") entryName = false /\
        ofstream_is_open more archivePath = true /\
        In (ZIPProcessorImpl.op_open archivePath)
           (ZIPProcessorImpl.operations run)) /\
    (success (ZIPProcessorImpl.returned run) = true ->
     value (ZIPProcessorImpl.returned run) = N.of_nat (List.length data) /\
     ZIPProcessorImpl.written run = Some data).
Proof.
  intros env env' more archivePath entryName data run. subst run.
  unfold ZIPProcessorImpl.addEntry.
  destruct (empty archivePath) eqn:Ep.
  { apply empty_true_iff in Ep. cbn.
    repeat split; try discriminate; try tauto. }
  destruct (empty entryName) eqn:En.
  { apply empty_true_iff in En. subst entryName. cbn.
    repeat split; try easy; tauto. }
  apply empty_false_iff in Ep, En.
  destruct (contains "../" entryName
            || contains (".." ++ String backslash "") entryName) eqn:Ec.
  { cbn. repeat split; try discriminate; tauto. }
  apply orb_false_iff in Ec. destruct Ec as [E1 E2].
  cbv zeta.
  split; [discriminate |].
  assert (Hno : ~ (archivePath = "" \/ entryName = "" \/ false = true))
    by (intros [H | [H | H]]; [tauto | tauto | discriminate]).
  destruct (empty (parent_path archivePath));
    [| destruct (fs_exists env (parent_path archivePath)) as [[|] | ?]];
    cbv beta iota;
    try destruct (fs_create_directories_throwing
                    more (parent_path archivePath)) as [[] | ?];
    cbn [ZIPProcessorImpl.operations ZIPProcessorImpl.written
         ZIPProcessorImpl.returned];
    try (cbn; repeat split; try discriminate; tauto);
    (destruct (ofstream_is_open more archivePath) eqn:Eopen; cbn [negb];
     [| cbn; repeat split; try discriminate; tauto]);
    (destruct data as [| b data'];
     cbn [andb ZIPProcessorImpl.operations ZIPProcessorImpl.written
          ZIPProcessorImpl.returned app];
     try destruct (ofstream_write_fail more archivePath (b :: data'));
     destruct (ofstream_close_fail more archivePath);
     cbn [ZIPProcessorImpl.operations ZIPProcessorImpl.written
          ZIPProcessorImpl.returned app];
     (split; [split; [discriminate | tauto] |]);
     (split;
      [intros sent H; injection H as <-;
       repeat split; try assumption; cbn; tauto |]);
     unfold try_catch, bind;
     try (cbn; discriminate);
     destruct (fs_exists env' archivePath) as [[|] | ?]; cbn;
     intro H; try discriminate; split; reflexivity).
Qed.

(** X29, with the entry name [../project.xml] on two different disks, and
    with [project.xml] *)
Lemma addEntry_checks_before_writing_witness :
  ZIPProcessorImpl.operations
    (ZIPProcessorImpl.addEntry env_empty_disk env_song more_posix
       "song.dawproject" "../project.xml" [Byte.x50; Byte.x4b]) = [] /\
  ZIPProcessorImpl.addEntry env_empty_disk env_song more_posix
    "song.dawproject" "../project.xml" [Byte.x50; Byte.x4b]
  = ZIPProcessorImpl.addEntry env_song env_empty_disk more_posix
      "song.dawproject" "../project.xml" [Byte.x50; Byte.x4b] /\
  ZIPProcessorImpl.written
    (ZIPProcessorImpl.addEntry env_empty_disk env_song more_posix
       "song.dawproject" "project.xml" [Byte.x50; Byte.x4b])
    = Some [Byte.x50; Byte.x4b] /\
  value (ZIPProcessorImpl.returned
           (ZIPProcessorImpl.addEntry env_empty_disk env_song more_posix
              "song.dawproject" "project.xml" [Byte.x50; Byte.x4b]))
    = 2%N.
Proof.
  destruct (addEntry_checks_before_writing env_empty_disk env_song more_posix
              "song.dawproject" "../project.xml" [Byte.x50; Byte.x4b])
    as (Hrefused & _).
  destruct (addEntry_checks_before_writing env_song env_empty_disk more_posix
              "song.dawproject" "../project.xml" [Byte.x50; Byte.x4b])
    as (Hrefused' & _).
  destruct (addEntry_checks_before_writing env_empty_disk env_song more_posix
              "song.dawproject" "project.xml" [Byte.x50; Byte.x4b])
    as (_ & _ & _ & Hok).
  destruct (Hrefused eq_refl) as (_ & _ & Hnone & Hsame).
  destruct (Hrefused' eq_refl) as (_ & _ & _ & Hsame').
  destruct (Hok eq_refl) as (Hvalue & Hsent).
  split; [exact Hnone |].
  split; [| split; [exact Hsent | exact Hvalue]].
  rewrite (Hsame ltac:(discriminate)), (Hsame' ltac:(discriminate)).
  reflexivity.
Defined.

(** X30: when [extractEntry] succeeds the archive is a non-empty regular
    file of at most 100 MiB and the data returned is no longer than the
    file; the entry name only has to be non-empty, any two names extract
    the same. *)
Theorem extractEntry_returns_the_file :
  forall (env : Env) (more : EnvMore) (archivePath name1 name2 : string),
    name1 <> "" -> name2 <> "" ->
    ZIPProcessorImpl.extractEntry env more archivePath name1
      = ZIPProcessorImpl.extractEntry env more archivePath name2 /\
    (success (ZIPProcessorImpl.extractEntry env more archivePath name1)
       = true ->
     ZIPProcessorImpl.isValidArchive env archivePath = true /\
     exists fileSize,
       fs_file_size env archivePath = Ret fileSize /\
       (fileSize <= 100 * 1024 * 1024)%N /\
       (N.of_nat (List.length
                    (value (ZIPProcessorImpl.extractEntry
                              env more archivePath name1)))
        <= fileSize)%N).
Proof.
  intros env more archivePath name1 name2 H1 H2.
  apply empty_false_iff in H1, H2.
  unfold ZIPProcessorImpl.extractEntry. rewrite H1, H2.
  split; [reflexivity |].
  rewrite isValidArchive_true_iff.
  unfold try_catch, bind.
  destruct (empty archivePath) eqn:Ep; [cbn; discriminate |].
  apply empty_false_iff in Ep.
  destruct (fs_exists env archivePath) as [[|] | ?]; cbn [negb];
    try (cbn; discriminate).
  destruct (fs_is_regular_file env archivePath) as [[|] | ?]; cbn [negb];
    try (cbn; discriminate).
  destruct (fs_file_size env archivePath) as [fileSize | ?];
    [| cbn; discriminate].
  destruct (N.eqb_spec fileSize 0) as [Hz | Hnz]; [cbn; discriminate |].
  cbv zeta.
  destruct (N.ltb_spec (100 * 1024 * 1024) fileSize) as [Hbig | Hfit];
    [cbn; discriminate |].
  destruct (ifstream_binary_is_open more archivePath); cbn [negb];
    [| cbn; discriminate].
  destruct (ifstream_read more archivePath fileSize)
    as [[stored failed] eof].
  destruct (failed && negb eof); [cbn; discriminate |].
  cbn. intros _. split.
  - repeat split; try assumption.
    exists fileSize. split; [reflexivity | exact Hnz].
  - exists fileSize. split; [reflexivity | split; [exact Hfit |]].
    rewrite length_firstn. lia.
Qed.

(** X30, on [song.dawproject], 1024 bytes long *)
Lemma extractEntry_returns_the_file_witness :
  ZIPProcessorImpl.extractEntry env_song more_posix "song.dawproject"
    "project.xml"
  = ZIPProcessorImpl.extractEntry env_song more_posix "song.dawproject"
      "no-such-entry".
Proof.
  apply (extractEntry_returns_the_file env_song more_posix
           "song.dawproject" "project.xml" "no-such-entry"); discriminate.
Defined.
